(** * IMAGE-SUMMARY: session state, history persistence and the send handler

    A shallow embedding of [app.py].  The script is a Streamlit page: the
    framework owns the widgets and re-executes the script on each interaction;
    the blocks of the script that read or write [st.session_state] and
    [history.json] are embedded here one by one, each under the name the source
    gives it (or the label of the button that guards it).

    What the program consumes from outside is explicit:
    - the wall clock ([datetime.now()]), a stream of readings indexed by the
      number of reads made so far;
    - [json.dump] / [json.load], the two functions of the [json] module the
      script calls: the pieces of text the first writes one after the other,
      the value the second reads;
    - the message of the [UnicodeEncodeError] raised when a piece cannot be
      encoded as UTF-8;
    - the answer or exception of [model.generate_content], carried by the
      send operation;
    - the result of decoding the uploaded file with PIL;
    - the state of [history.json] in the working directory.

    The statements that only draw the page (markup, chat bubbles of earlier
    entries, the text-to-speech button, the quick-action buttons that fill the
    prompt) keep no state of the session and are left out. *)

From Stdlib Require Import String Ascii.
From Stdlib Require Import List ZArith NArith Bool Lia Arith.
From Stdlib Require DecimalZ DecimalPos DecimalFacts.
Import ListNotations.

Set Warnings "-register-all".

Local Open Scope N_scope.

(** ** Python [str] *)

(** A Python string is a sequence of Unicode code points. *)
Definition char := N.
Definition pystr := list char.

(** ASCII literals of the source, as code points. *)
Definition lit (s : string) : pystr := List.map N_of_ascii (list_ascii_of_string s).

Definition pystr_eqb (a b : pystr) : bool :=
  if list_eq_dec N.eq_dec a b then true else false.

(** [not s] for a string. *)
Definition is_empty (s : pystr) : bool :=
  match s with [] => true | _ :: _ => false end.

(** [str.isspace] on one character: the code points Python treats as
    whitespace. *)
Definition isspace (c : char) : bool :=
  ((9 <=? c) && (c <=? 13))
  || ((28 <=? c) && (c <=? 32))
  || (c =? 133) || (c =? 160) || (c =? 5760)
  || ((8192 <=? c) && (c <=? 8202))
  || (c =? 8232) || (c =? 8233) || (c =? 8239) || (c =? 8287) || (c =? 12288).

Fixpoint lstrip (s : pystr) : pystr :=
  match s with
  | [] => []
  | c :: s' => if isspace c then lstrip s' else s
  end.

Definition rstrip (s : pystr) : pystr := rev (lstrip (rev s)).

(** [s.strip()] *)
Definition strip (s : pystr) : pystr := rstrip (lstrip s).


(** ** Text as bytes *)

(** [chr(c).encode("utf-8")]: one to four bytes; a surrogate (and a number
    that is no code point) has no encoding, [UnicodeEncodeError]. *)
Definition utf8_char (c : char) : option (list N) :=
  if c <? 128 then Some [c]
  else if c <? 2048 then Some [192 + c / 64; 128 + c mod 64]
  else if c <? 65536 then
    if (55296 <=? c) && (c <=? 57343) then None
    else Some [224 + c / 4096; 128 + (c / 64) mod 64; 128 + c mod 64]
  else if c <? 1114112 then
    Some [240 + c / 262144; 128 + (c / 4096) mod 64; 128 + (c / 64) mod 64; 128 + c mod 64]
  else None.

(** [text.encode("utf-8")] *)
Fixpoint utf8_encode (text : pystr) : option (list N) :=
  match text with
  | [] => Some []
  | c :: text' =>
      match utf8_char c, utf8_encode text' with
      | Some bytes, Some rest => Some (bytes ++ rest)
      | _, _ => None
      end
  end.

(** A Unicode scalar value: a code point that is not a surrogate. *)
Definition scalar_value (c : char) : bool :=
  (c <? 1114112) && negb ((55296 <=? c) && (c <=? 57343)).

(** What a file opened with [encoding="utf-8"] receives from a sequence of
    [f.write(chunk)] calls: the chunks before the first one whose encoding
    raises, and that chunk if there is one. *)
Fixpoint write_chunks (chunks : list pystr) : pystr * option pystr :=
  match chunks with
  | [] => ([], None)
  | c :: rest =>
      match utf8_encode c with
      | None => ([], Some c)
      | Some _ => let (text, failed) := write_chunks rest in (c ++ text, failed)
      end
  end.

(** ** JSON values

    [st.session_state.history] is a list of dicts; what [json.load] puts there
    is whatever the file holds.  Dicts keep insertion order.  Numbers are the
    integers the script writes ([rating]). *)
Inductive json : Type :=
| JNull
| JBool (b : bool)
| JInt (z : Z)
| JStr (s : pystr)
| JList (items : list json)
| JDict (fields : list (pystr * json)).

(** [d.get(k)] on the fields of a dict. *)
Fixpoint assoc_get (k : pystr) (d : list (pystr * json)) : option json :=
  match d with
  | [] => None
  | (k', v) :: d' => if pystr_eqb k k' then Some v else assoc_get k d'
  end.

(** [d[k] = v] on the fields of a dict: an existing key keeps its place. *)
Fixpoint assoc_set (k : pystr) (v : json) (d : list (pystr * json))
  : list (pystr * json) :=
  match d with
  | [] => [(k, v)]
  | (k', v') :: d' =>
      if pystr_eqb k k' then (k', v) :: d' else (k', v') :: assoc_set k v d'
  end.

(** [d.get(k, default)] *)
Definition get_default (k : pystr) (default : json) (d : list (pystr * json)) : json :=
  match assoc_get k d with Some v => v | None => default end.

(** [obj[k] = v] with a string key: only a dict accepts it, every other value
    raises [TypeError] ([None]). *)
Definition setitem (obj : json) (k : pystr) (v : json) : option json :=
  match obj with
  | JDict d => Some (JDict (assoc_set k v d))
  | _ => None
  end.

(** Truth value of an object, as [not x] tests it. *)
Definition truthy (v : json) : bool :=
  match v with
  | JNull => false
  | JBool b => b
  | JInt z => negb (Z.eqb z 0)
  | JStr s => negb (is_empty s)
  | JList l => match l with [] => false | _ => true end
  | JDict d => match d with [] => false | _ => true end
  end.

(** Field of a history entry ([None] when the entry is not a dict or has no
    such key). *)
Definition field (k : pystr) (e : json) : option json :=
  match e with
  | JDict d => assoc_get k d
  | _ => None
  end.

Definition entry_id (e : json) : option json := field (lit "id") e.
Definition entry_rating (e : json) : option json := field (lit "rating") e.

(** ** Session state *)

(** A decoded image ([PIL.Image] after [convert("RGB")]). *)
Record image : Type := RGB { width : N; height : N; pixels : list N }.

(** [st.session_state.achievements] *)
Record achievements_t : Type := Achievements {
  questions_today : Z;
  first_upload_done : bool
}.

(** The four keys of [st.session_state] the script owns. *)
Record session_state : Type := Session {
  history : list json;
  current_image : option image;
  persist_opt_in : bool;
  achievements : achievements_t
}.

(** ** The file [history.json] *)
Inductive file_state : Type :=
| Missing                       (* [os.path.exists] is false *)
| Unreadable                    (* exists, but opening or decoding it raises *)
| Readable (text : pystr).      (* exists and reads as [text] *)

Record filesystem : Type := Fs {
  history_json : file_state;
  (* [Some msg]: [open(HISTORY_FILE, "w")] raises an error that prints as [msg] *)
  write_denied : option pystr
}.

(** ** The world a handler runs in *)
Record world : Type := World {
  session : session_state;
  fs : filesystem;
  clock_reads : nat             (* calls of [datetime.now()] made so far *)
}.

(** One reading of [datetime.now()], through the two renderings the script
    takes of it. *)
Record datetime : Type := Datetime {
  stamp : pystr;                (* f"{dt.timestamp()}" *)
  iso : pystr                   (* dt.strftime("%Y-%m-%d %H:%M:%S") *)
}.

(** What the process is started with. *)
Record env : Type := Env {
  API_KEY : pystr;                        (* os.getenv("GOOGLE_API_KEY", "") *)
  model_init_raises : bool;               (* genai.configure / GenerativeModel raised *)
  clock : nat -> datetime;                (* the n-th reading of datetime.now() *)
  json_chunks : json -> list pystr;       (* the pieces json.dump(..., ensure_ascii=False, indent=2)
                                             hands to f.write, in order *)
  json_loads : pystr -> option json;      (* json.load; None when it raises *)
  encode_error : pystr -> pystr           (* str() of the UnicodeEncodeError that encoding a chunk raises *)
}.

(** The text of [json.dumps(..., ensure_ascii=False, indent=2)]: the pieces
    joined. *)
Definition json_dumps (e : env) (v : json) : pystr := concat (json_chunks e v).

(** Lines 109-117: [model] is an object only when the key is non-empty and
    the initialisation did not raise. *)
Definition model_configured (e : env) : bool :=
  negb (is_empty (API_KEY e)) && negb (model_init_raises e).

(** What the page shows. *)
Inductive ui_event : Type :=
| StError (msg : pystr)
| StWarning (msg : pystr)
| StSuccess (msg : pystr)
| StInfo (msg : pystr)
| StMarkdown (html : pystr)
| StDownload (data : list N)
| Uncaught (exception : pystr).   (* an exception that leaves the script *)

(** Outcome of a call that can raise. *)
Inductive result : Type :=
| Returned (text : pystr)
| Raised (message : pystr).

(** Outcome of [Image.open(uploaded).convert("RGB")]. *)
Inductive decode_result : Type :=
| Decoded (img : image)
| Unidentified                     (* UnidentifiedImageError *)
| DecodeRaised (exception : pystr). (* any other exception *)

(** *** Field updates *)

Definition with_history (h : list json) (s : session_state) : session_state :=
  Session h (current_image s) (persist_opt_in s) (achievements s).

Definition with_image (i : option image) (s : session_state) : session_state :=
  Session (history s) i (persist_opt_in s) (achievements s).

Definition with_persist (b : bool) (s : session_state) : session_state :=
  Session (history s) (current_image s) b (achievements s).

Definition with_achievements (a : achievements_t) (s : session_state) : session_state :=
  Session (history s) (current_image s) (persist_opt_in s) a.

Definition with_session (s : session_state) (w : world) : world :=
  World s (fs w) (clock_reads w).

(** ** Helper utilities (lines 70-107) *)

(** [f"{datetime.now().timestamp()}"]: one clock read. *)
Definition now_stamp (e : env) (w : world) : pystr * world :=
  (stamp (clock e (clock_reads w)), World (session w) (fs w) (S (clock_reads w))).

(** [now_iso()]: one clock read. *)
Definition now_iso (e : env) (w : world) : pystr * world :=
  (iso (clock e (clock_reads w)), World (session w) (fs w) (S (clock_reads w))).

(** [save_history_to_disk()].  Nothing happens without the opt-in.  [open]
    with mode ["w"] either raises or leaves the file empty; [json.dump] then
    writes the document piece by piece, and a piece that cannot be encoded
    raises after the pieces before it were written.  Either exception ends in
    the warning. *)
Definition save_history_to_disk (e : env) (w : world) : world * list ui_event :=
  if negb (persist_opt_in (session w)) then (w, [])
  else
    match write_denied (fs w) with
    | Some msg => (w, [StWarning (lit "Could not save history to disk: " ++ msg)])
    | None =>
        let (t, w1) := now_iso e w in
        let doc := JDict [(lit "saved_at", JStr t);
                          (lit "items", JList (history (session w1)))] in
        let (text, failed) := write_chunks (json_chunks e doc) in
        (World (session w1)
               (Fs (Readable text) (write_denied (fs w1)))
               (clock_reads w1),
         match failed with
         | None => []
         | Some chunk =>
             [StWarning (lit "Could not save history to disk: " ++ encode_error e chunk)]
         end)
    end.

(** [load_history_from_disk()] *)
Definition load_history_from_disk (e : env) (w : world) : world :=
  match history_json (fs w) with
  | Missing => w
  | Unreadable => w
  | Readable text =>
      match json_loads e text with
      | None => w
      | Some (JDict d) =>
          match get_default (lit "items") (JList []) d with
          | JList items => with_session (with_history items (session w)) w
          | _ => w
          end
      | Some _ => w               (* no [get] on the value: AttributeError, swallowed *)
      end
  end.

(** [export_history_bytes()]: the bytes of the buffer, [None] when
    [.encode("utf-8")] raises [UnicodeEncodeError]. *)
Definition export_history_bytes (e : env) (w : world) : option (list N) * world :=
  let (t, w1) := now_iso e w in
  (utf8_encode (json_dumps e (JDict [(lit "exported_at", JStr t);
                                     (lit "items", JList (history (session w1)))])), w1).

(** [generate_answer(question, image_obj)]; [reply] is what
    [model.generate_content([question, image_obj])] and reading [resp.text]
    come to. *)
Definition generate_answer (e : env) (question : pystr) (image_obj : image)
    (reply : pystr -> image -> result) : result :=
  if negb (model_configured e) then
    Raised (lit "Generative model not configured (missing/invalid GOOGLE_API_KEY).")
  else
    match reply question image_obj with
    | Returned text =>
        Returned (if is_empty text then lit "(No text returned)" else text)
    | Raised msg => Raised msg
    end.

(** ** Session state & default (lines 129-140) *)

Definition default_session : session_state :=
  Session [] None false (Achievements 0 false).

Definition initial_world (f : filesystem) : world := World default_session f 0.

(** Lines 139-140: on every execution of the script. *)
Definition hydrate (e : env) (w : world) : world :=
  if persist_opt_in (session w) then load_history_from_disk e w else w.

(** ** Sidebar controls (lines 148-170) *)

(** Line 148: the checkbox value is stored. *)
Definition persist_checkbox (b : bool) (w : world) : world :=
  with_session (with_persist b (session w)) w.

(** "Clear Session History" *)
Definition clear_history_clicked (e : env) (w : world) : world * list ui_event :=
  let w1 := with_session (with_history [] (session w)) w in
  let (w2, ev) := save_history_to_disk e w1 in
  (w2, ev ++ [StSuccess (lit "Session history cleared.")]).

(** Line 153, "Export History (JSON)": the data of the download button; an
    exception of [export_history_bytes()] is caught by nothing. *)
Definition export_clicked (e : env) (w : world) : world * list ui_event :=
  let (data, w1) := export_history_bytes e w in
  match data with
  | Some bytes => (w1, [StDownload bytes])
  | None => (w1, [Uncaught (lit "UnicodeEncodeError")])
  end.

(** Replace the element at index [i]. *)
Fixpoint list_update {A : Type} (i : nat) (x : A) (l : list A) : list A :=
  match l, i with
  | [], _ => []
  | _ :: l', O => x :: l'
  | y :: l', S i' => y :: list_update i' x l'
  end.

(** The pin button of the sidebar, for the entry at index [i] of the history
    (one of the last six).  [entry.get] needs a dict. *)
Definition sidebar_pin_clicked (e : env) (i : nat) (w : world) : world * list ui_event :=
  let h := history (session w) in
  if negb ((length h - 6 <=? i)%nat && (i <? length h)%nat) then (w, [])
  else
    match nth_error h i with
    | Some (JDict d) =>
        let pinned := get_default (lit "pinned") (JBool false) d in
        let entry := JDict (assoc_set (lit "pinned") (JBool (negb (truthy pinned))) d) in
        let w1 := with_session (with_history (list_update i entry h) (session w)) w in
        save_history_to_disk e w1
    | Some _ => (w, [Uncaught (lit "AttributeError")])
    | None => (w, [])
    end.

(** ** Upload (lines 193-205) *)
Definition uploaded (r : decode_result) (w : world) : world * list ui_event :=
  match r with
  | Decoded img =>
      let s1 := with_image (Some img) (session w) in
      let a := achievements s1 in
      let s2 := if negb (first_upload_done a)
                then with_achievements (Achievements (questions_today a) true) s1
                else s1 in
      (with_session s2 w, [])
  | Unidentified =>
      (with_session (with_image None (session w)) w,
       [StError (lit "Could not decode image. Upload a valid JPG/PNG.")])
  | DecodeRaised exn => (w, [Uncaught exn])
  end.

(** ** Send logic (lines 256-283) *)

Definition msg_no_api_key : pystr :=
  lit "GOOGLE_API_KEY not configured. Add it to your environment or .env file.".
Definition msg_no_image : pystr := lit "Please upload an image first.".
Definition msg_no_question : pystr := lit "Please enter a question.".

(** The dict built at lines 270-277. *)
Definition new_entry (id ts question answer : pystr) : json :=
  JDict [(lit "id", JStr id);
         (lit "timestamp", JStr ts);
         (lit "question", JStr question);
         (lit "answer", JStr answer);
         (lit "rating", JInt 0);
         (lit "pinned", JBool false)].

Definition bubble (cls text : pystr) : pystr :=
  lit "<div class='" ++ cls ++ lit "'>" ++ text ++ lit "</div>".

Definition send_clicked (e : env) (prompt : pystr)
    (reply : pystr -> image -> result) (w : world) : world * list ui_event :=
  if is_empty (API_KEY e) then (w, [StError msg_no_api_key])
  else
    match current_image (session w) with
    | None => (w, [StError msg_no_image])
    | Some img =>
        if is_empty (strip prompt) then (w, [StError msg_no_question])
        else
          let answer :=
            match generate_answer e (strip prompt) img reply with
            | Returned text => text
            | Raised msg => lit "Error: " ++ msg
            end in
          let (id, w0) := now_stamp e w in
          let (ts, w1) := now_iso e w0 in
          let entry := new_entry id ts (strip prompt) answer in
          let s1 := with_history (history (session w1) ++ [entry]) (session w1) in
          let a := achievements s1 in
          let s2 := with_achievements
                      (Achievements (questions_today a + 1) (first_upload_done a)) s1 in
          let (w2, ev) := save_history_to_disk e (with_session s2 w1) in
          (w2, ev ++ [StMarkdown (bubble (lit "bubble-user") (strip prompt));
                      StMarkdown (bubble (lit "bubble-assistant") answer)])
    end.

(** ** Per-message actions (lines 301-311) *)

(** [history[-1] = x] for a non-empty list. *)
Definition set_last (x : json) (h : list json) : list json := removelast h ++ [x].

(** [history[-1]], or [None] when the list is empty. *)
Definition last_entry (h : list json) : option json := nth_error h (length h - 1).

(** "Save Rating"; [rr] is the slider value. *)
Definition save_rating_clicked (e : env) (rr : Z) (w : world) : world * list ui_event :=
  match last_entry (history (session w)) with
  | None => (w, [])
  | Some last =>
      match setitem last (lit "rating") (JInt rr) with
      | None => (w, [Uncaught (lit "TypeError")])
      | Some last' =>
          let w1 := with_session
                      (with_history (set_last last' (history (session w))) (session w)) w in
          let (w2, ev) := save_history_to_disk e w1 in
          (w2, ev ++ [StSuccess (lit "Thanks for rating!")])
      end
  end.

(** The slider is declared with [min_value=1, max_value=5]. *)
Definition slider_value (rr : Z) : Prop := (1 <= rr <= 5)%Z.

(** "Pin last" *)
Definition pin_last_clicked (e : env) (w : world) : world * list ui_event :=
  match last_entry (history (session w)) with
  | None => (w, [])
  | Some (JDict d) =>
      let pinned := get_default (lit "pinned") (JBool false) d in
      let last' := JDict (assoc_set (lit "pinned") (JBool (negb (truthy pinned))) d) in
      let w1 := with_session
                  (with_history (set_last last' (history (session w))) (session w)) w in
      let (w2, ev) := save_history_to_disk e w1 in
      (w2, ev ++ [StInfo (lit "Pinned toggled.")])
  | Some _ => (w, [Uncaught (lit "AttributeError")])
  end.

(** ** Operations and executions *)

(** What the user can trigger. *)
Inductive operation : Type :=
| SetPersist (b : bool)
| Clear
| Export
| PinSidebar (i : nat)
| Upload (r : decode_result)
| Send (prompt : pystr) (reply : pystr -> image -> result)
| Rate (rr : Z)
| PinLast.

Definition perform (e : env) (op : operation) (w : world) : world * list ui_event :=
  match op with
  | SetPersist b => (persist_checkbox b w, [])
  | Clear => clear_history_clicked e w
  | Export => export_clicked e w
  | PinSidebar i => sidebar_pin_clicked e i w
  | Upload r => uploaded r w
  | Send prompt reply => send_clicked e prompt reply w
  | Rate rr => save_rating_clicked e rr w
  | PinLast => pin_last_clicked e w
  end.

(** A step of a session.  [Rerun] is the load at the top of the script (lines
    139-140), made each time the script starts over; [Do op] is one of the
    blocks further down.  A run of the script is a [Rerun] followed by the
    blocks that fire in it; [Do Export] is among them in every run, since line
    153 builds the data of the download button each time. *)
Inductive step : Type :=
| Rerun
| Do (op : operation).

Definition run_step (e : env) (s : step) (w : world) : world :=
  match s with
  | Rerun => hydrate e w
  | Do op => fst (perform e op w)
  end.

Definition run (e : env) (steps : list step) (w : world) : world :=
  fold_left (fun w s => run_step e s w) steps w.

(** ** A reference implementation of the two [json] calls

    [ref_dumps] prints a value the way [json.dump(obj, f, ensure_ascii=False,
    indent=2)] does, [ref_chunks] cuts that text into the pieces handed to
    [f.write] one by one, and [ref_loads] reads JSON text back.  They stand
    for the library where an execution needs concrete functions. *)

(** Newline and two spaces per level. *)
Definition newline_indent (lvl : nat) : pystr := 10 :: repeat 32 (2 * lvl).

Definition hex_digit (d : N) : char := if d <? 10 then 48 + d else 87 + d.

(** One character inside a string literal: the short escapes, [\u00XX] for the
    other control characters, everything else as it is. *)
Definition escape_char (c : char) : pystr :=
  if c =? 34 then [92; 34]
  else if c =? 92 then [92; 92]
  else if c =? 10 then [92; 110]
  else if c =? 13 then [92; 114]
  else if c =? 9 then [92; 116]
  else if c =? 8 then [92; 98]
  else if c =? 12 then [92; 102]
  else if c <? 32 then [92; 117; 48; 48; hex_digit (c / 16); hex_digit (c mod 16)]
  else [c].

Definition print_string (s : pystr) : pystr := 34 :: flat_map escape_char s ++ [34].

Fixpoint print_uint (u : Decimal.uint) : pystr :=
  match u with
  | Decimal.Nil => []
  | Decimal.D0 u' => 48 :: print_uint u'
  | Decimal.D1 u' => 49 :: print_uint u'
  | Decimal.D2 u' => 50 :: print_uint u'
  | Decimal.D3 u' => 51 :: print_uint u'
  | Decimal.D4 u' => 52 :: print_uint u'
  | Decimal.D5 u' => 53 :: print_uint u'
  | Decimal.D6 u' => 54 :: print_uint u'
  | Decimal.D7 u' => 55 :: print_uint u'
  | Decimal.D8 u' => 56 :: print_uint u'
  | Decimal.D9 u' => 57 :: print_uint u'
  end.

Definition print_int (z : Z) : pystr :=
  match Z.to_int z with
  | Decimal.Pos u => print_uint u
  | Decimal.Neg u => 45 :: print_uint u
  end.

(** Items one per line, separated by a comma. *)
Fixpoint join_items (lvl : nat) (items : list pystr) : pystr :=
  match items with
  | [] => []
  | [x] => x
  | x :: rest => x ++ 44 :: newline_indent lvl ++ join_items lvl rest
  end.

Fixpoint print_value (lvl : nat) (v : json) : pystr :=
  match v with
  | JNull => lit "null"
  | JBool true => lit "true"
  | JBool false => lit "false"
  | JInt z => print_int z
  | JStr s => print_string s
  | JList [] => lit "[]"
  | JList items =>
      91 :: newline_indent (S lvl)
         ++ join_items (S lvl) (List.map (print_value (S lvl)) items)
         ++ newline_indent lvl ++ [93]
  | JDict [] => lit "{}"
  | JDict fields =>
      123 :: newline_indent (S lvl)
          ++ join_items (S lvl)
               (List.map (fun kv => print_string (fst kv) ++ 58 :: 32 :: print_value (S lvl) (snd kv))
                         fields)
          ++ newline_indent lvl ++ [125]
  end.

Definition ref_dumps (v : json) : pystr := print_value 0 v.

(** The pieces [json.dump] writes one after the other.  In a list, [None],
    a bool, an int or a string goes out together with the bracket or comma
    before it; a list or dict follows that as pieces of its own.  In a dict,
    the key, the colon and the value are separate pieces. *)
Definition scalar_text (v : json) : option pystr :=
  match v with
  | JNull => Some (lit "null")
  | JBool true => Some (lit "true")
  | JBool false => Some (lit "false")
  | JInt z => Some (print_int z)
  | JStr s => Some (print_string s)
  | JList _ => None
  | JDict _ => None
  end.

Fixpoint chunks (lvl : nat) (v : json) : list pystr :=
  match v with
  | JNull => [lit "null"]
  | JBool true => [lit "true"]
  | JBool false => [lit "false"]
  | JInt z => [print_int z]
  | JStr s => [print_string s]
  | JList [] => [lit "[]"]
  | JList (x :: xs) =>
      let item (buf : pystr) (y : json) :=
        match scalar_text y with
        | Some t => [buf ++ t]
        | None => buf :: chunks (S lvl) y
        end in
      item (91 :: newline_indent (S lvl)) x
        ++ flat_map (item (44 :: newline_indent (S lvl))) xs
        ++ [newline_indent lvl; [93]]
  | JDict [] => [lit "{}"]
  | JDict (kv :: kvs) =>
      let member (kv : pystr * json) :=
        print_string (fst kv) :: [58; 32] :: chunks (S lvl) (snd kv) in
      [123] :: newline_indent (S lvl) :: member kv
        ++ flat_map (fun kv => (44 :: newline_indent (S lvl)) :: member kv) kvs
        ++ [newline_indent lvl; [125]]
  end.

Definition ref_chunks (v : json) : list pystr := chunks 0 v.

(** The message of the [UnicodeEncodeError] that encoding [s] raises: it names
    the first surrogate and its position, or the positions of a run of
    them. *)
Definition is_surrogate (c : char) : bool := (55296 <=? c) && (c <=? 57343).

Fixpoint surrogate_run (s : pystr) : nat :=
  match s with
  | [] => O
  | c :: s' => if is_surrogate c then S (surrogate_run s') else O
  end.

Definition hex4 (c : N) : pystr :=
  [hex_digit (c / 4096); hex_digit ((c / 256) mod 16);
   hex_digit ((c / 16) mod 16); hex_digit (c mod 16)].

Fixpoint encode_error_at (pos : nat) (s : pystr) : pystr :=
  match s with
  | [] => []
  | c :: s' =>
      match utf8_char c with
      | Some _ => encode_error_at (S pos) s'
      | None =>
          match surrogate_run s' with
          | O =>
              lit "'utf-8' codec can't encode character '\u" ++ hex4 c
                ++ lit "' in position " ++ print_int (Z.of_nat pos)
                ++ lit ": surrogates not allowed"
          | S n =>
              lit "'utf-8' codec can't encode characters in position "
                ++ print_int (Z.of_nat pos) ++ 45 :: print_int (Z.of_nat (pos + S n))
                ++ lit ": surrogates not allowed"
          end
      end
  end.

Definition ref_encode_error (chunk : pystr) : pystr := encode_error_at 0 chunk.

(** JSON whitespace. *)
Definition is_ws (c : char) : bool :=
  (c =? 32) || (c =? 10) || (c =? 13) || (c =? 9).

Fixpoint skip_ws (s : pystr) : pystr :=
  match s with
  | [] => []
  | c :: s' => if is_ws c then skip_ws s' else s
  end.

Definition unhex (c : char) : option N :=
  if (48 <=? c) && (c <=? 57) then Some (c - 48)
  else if (97 <=? c) && (c <=? 102) then Some (c - 87)
  else if (65 <=? c) && (c <=? 70) then Some (c - 55)
  else None.

Definition unhex4 (a b c d : char) : option N :=
  match unhex a, unhex b, unhex c, unhex d with
  | Some x, Some y, Some z, Some t => Some (((x * 16 + y) * 16 + z) * 16 + t)
  | _, _, _, _ => None
  end.

(** The character a one-letter escape stands for. *)
Definition unescape (c : char) : option char :=
  if c =? 34 then Some 34
  else if c =? 92 then Some 92
  else if c =? 47 then Some 47
  else if c =? 110 then Some 10
  else if c =? 114 then Some 13
  else if c =? 116 then Some 9
  else if c =? 98 then Some 8
  else if c =? 102 then Some 12
  else None.

Definition cons_char (c : char) (r : option (pystr * pystr)) : option (pystr * pystr) :=
  match r with
  | Some (s, rest) => Some (c :: s, rest)
  | None => None
  end.

(** The characters of a string literal after its opening quote, and what
    follows the closing quote.  A [\uXXXX] escape yields the code unit it
    names. *)
Fixpoint parse_string_body (s : pystr) : option (pystr * pystr) :=
  match s with
  | [] => None
  | c :: s1 =>
      if c =? 34 then Some ([], s1)
      else if c =? 92 then
        match s1 with
        | [] => None
        | x :: s2 =>
            if x =? 117 then
              match s2 with
              | a :: b :: c' :: d :: s3 =>
                  match unhex4 a b c' d with
                  | Some cp => cons_char cp (parse_string_body s3)
                  | None => None
                  end
              | _ => None
              end
            else
              match unescape x with
              | Some cp => cons_char cp (parse_string_body s2)
              | None => None
              end
        end
      else if c <? 32 then None
      else cons_char c (parse_string_body s1)
  end.

Definition is_digit (c : char) : bool := (48 <=? c) && (c <=? 57).

Definition digit_cons (c : char) : Decimal.uint -> Decimal.uint :=
  if c =? 48 then Decimal.D0 else if c =? 49 then Decimal.D1
  else if c =? 50 then Decimal.D2 else if c =? 51 then Decimal.D3
  else if c =? 52 then Decimal.D4 else if c =? 53 then Decimal.D5
  else if c =? 54 then Decimal.D6 else if c =? 55 then Decimal.D7
  else if c =? 56 then Decimal.D8 else Decimal.D9.

(** The longest prefix of digits. *)
Fixpoint parse_digits (s : pystr) : Decimal.uint * pystr :=
  match s with
  | [] => (Decimal.Nil, [])
  | c :: s' =>
      if is_digit c then
        let (u, rest) := parse_digits s' in (digit_cons c u, rest)
      else (Decimal.Nil, s)
  end.

(** An integer: an optional minus sign and at least one digit. *)
Definition parse_int (s : pystr) : option (json * pystr) :=
  match s with
  | [] => None
  | c :: s' =>
      if c =? 45 then
        match parse_digits s' with
        | (Decimal.Nil, _) => None
        | (u, rest) => Some (JInt (Z.of_int (Decimal.Neg u)), rest)
        end
      else
        match parse_digits s with
        | (Decimal.Nil, _) => None
        | (u, rest) => Some (JInt (Z.of_int (Decimal.Pos u)), rest)
        end
  end.

(** [Some rest] when [s] starts with [word]. *)
Fixpoint expect (word s : pystr) : option pystr :=
  match word, s with
  | [], _ => Some s
  | a :: word', b :: s' => if a =? b then expect word' s' else None
  | _ :: _, [] => None
  end.

Definition keyword (word : pystr) (v : json) (s : pystr) : option (json * pystr) :=
  match expect word s with
  | Some rest => Some (v, rest)
  | None => None
  end.

(** Values, the items of a list after its bracket and the members of an
    object after its brace; [fuel] bounds the number of calls. *)
Fixpoint parse_value (fuel : nat) (s : pystr) : option (json * pystr) :=
  match fuel with
  | O => None
  | S fuel' =>
      match skip_ws s with
      | [] => None
      | c :: s' =>
          if c =? 110 then keyword (lit "ull") JNull s'
          else if c =? 116 then keyword (lit "rue") (JBool true) s'
          else if c =? 102 then keyword (lit "alse") (JBool false) s'
          else if c =? 34 then
            match parse_string_body s' with
            | Some (str, rest) => Some (JStr str, rest)
            | None => None
            end
          else if c =? 91 then
            match skip_ws s' with
            | [] => None
            | c1 :: s1 =>
                if c1 =? 93 then Some (JList [], s1)
                else
                  match parse_items fuel' s' with
                  | Some (items, rest) => Some (JList items, rest)
                  | None => None
                  end
            end
          else if c =? 123 then
            match skip_ws s' with
            | [] => None
            | c1 :: s1 =>
                if c1 =? 125 then Some (JDict [], s1)
                else
                  match parse_members fuel' s' with
                  | Some (fields, rest) => Some (JDict fields, rest)
                  | None => None
                  end
            end
          else parse_int (c :: s')
      end
  end
with parse_items (fuel : nat) (s : pystr) : option (list json * pystr) :=
  match fuel with
  | O => None
  | S fuel' =>
      match parse_value fuel' s with
      | None => None
      | Some (v, rest) =>
          match skip_ws rest with
          | [] => None
          | c :: rest' =>
              if c =? 93 then Some ([v], rest')
              else if c =? 44 then
                match parse_items fuel' rest' with
                | Some (vs, rest'') => Some (v :: vs, rest'')
                | None => None
                end
              else None
          end
      end
  end
with parse_members (fuel : nat) (s : pystr) : option (list (pystr * json) * pystr) :=
  match fuel with
  | O => None
  | S fuel' =>
      match skip_ws s with
      | [] => None
      | q :: s0 =>
          if q =? 34 then
            match parse_string_body s0 with
            | None => None
            | Some (k, s1) =>
                match skip_ws s1 with
                | [] => None
                | colon :: s2 =>
                    if colon =? 58 then
                      match parse_value fuel' s2 with
                      | None => None
                      | Some (v, rest) =>
                          match skip_ws rest with
                          | [] => None
                          | c :: rest' =>
                              if c =? 125 then Some ([(k, v)], rest')
                              else if c =? 44 then
                                match parse_members fuel' rest' with
                                | Some (kvs, rest'') => Some ((k, v) :: kvs, rest'')
                                | None => None
                                end
                              else None
                          end
                      end
                    else None
                end
            end
          else None
      end
  end.

(** A document is one value and nothing but whitespace after it. *)
Definition ref_loads (text : pystr) : option json :=
  match parse_value (S (length text)) text with
  | Some (v, rest) =>
      match skip_ws rest with
      | [] => Some v
      | _ :: _ => None
      end
  | None => None
  end.

Definition sample_entry : json :=
  new_entry (lit "1700000000.5") (lit "2023-11-14 22:13:20")
            (lit "Summarize") (lit "A calm beach scene.").


(** *** Sample data *)

Definition sample_image : image := RGB 1 1 [0; 128; 255].

(** A clock that advances by one second per read. *)
Definition ticking_clock (n : nat) : datetime :=
  Datetime (print_int (1700000000 + Z.of_nat n) ++ lit ".5")
           (lit "2023-11-14 22:13:20").

(** A clock whose reading does not change between reads. *)
Definition frozen_clock (n : nat) : datetime :=
  Datetime (lit "1700000000.5") (lit "2023-11-14 22:13:20").

(** A process with a key whose model initialised. *)
Definition configured_env : env :=
  Env (lit "secret-key") false ticking_clock ref_chunks ref_loads ref_encode_error.

(** A process with a key whose model initialisation raised. *)
Definition failed_init_env : env :=
  Env (lit "secret-key") true ticking_clock ref_chunks ref_loads ref_encode_error.

(** A process started without [GOOGLE_API_KEY]. *)
Definition keyless_env : env :=
  Env [] false ticking_clock ref_chunks ref_loads ref_encode_error.

Definition frozen_env : env :=
  Env (lit "secret-key") false frozen_clock ref_chunks ref_loads ref_encode_error.

(** An exchange with text outside ASCII: an accented letter, an emoji, a
    newline and a quotation mark. *)
Definition emoji_entry : json :=
  new_entry (lit "1700000003.25") (lit "2023-11-14 22:13:23")
            (lit "caf" ++ [233; 32; 128512])
            (lit "Sunny " ++ [9728; 65039; 10; 34] ++ lit "beach" ++ [34]).

(** An exchange whose answer holds a lone surrogate (U+D83D, the first half
    of an emoji with the second half missing). *)
Definition surrogate_entry : json :=
  new_entry (lit "1700000001.5") (lit "2023-11-14 22:13:21")
            (lit "Summarize") (lit "ab" ++ [55357] ++ lit "cd").

Definition beach_stub (question : pystr) (img : image) : result :=
  Returned (lit "A calm beach scene.").

Definition silent_stub (question : pystr) (img : image) : result :=
  Returned [].

Definition timeout_stub (question : pystr) (img : image) : result :=
  Raised (lit "timeout").

(** A reply that holds a lone surrogate. *)
Definition surrogate_stub (question : pystr) (img : image) : result :=
  Returned (lit "ab" ++ [55357] ++ lit "cd").

Definition empty_fs : filesystem := Fs Missing None.

(** A session with an image uploaded and nothing asked yet. *)
Definition ready_world : world :=
  World (Session [] (Some sample_image) false (Achievements 0 true)) empty_fs 0.

(** A session with one answered question and persistence on. *)
Definition one_entry_world : world :=
  World (Session [sample_entry] (Some sample_image) true (Achievements 1 true)) empty_fs 2.

(** A session with two answered questions and persistence on. *)
Definition two_entry_world : world :=
  World (Session [sample_entry; emoji_entry] (Some sample_image) true (Achievements 2 true))
        empty_fs 4.

(** A session with persistence on whose one entry holds a lone surrogate. *)
Definition surrogate_world : world :=
  World (Session [surrogate_entry] (Some sample_image) true (Achievements 1 true))
        empty_fs 2.

(** A file left by an earlier session, and one without the [items] key. *)
Definition earlier_session_fs : filesystem :=
  Fs (Readable (ref_dumps (JDict [(lit "saved_at", JStr (lit "2023-11-13 09:00:00"));
                                  (lit "items", JList [sample_entry])]))) None.
Definition no_items_fs : filesystem :=
  Fs (Readable (ref_dumps (JDict [(lit "saved_at", JStr (lit "2023-11-13 09:00:00"))]))) None.

(** A file left a day before the clock's first reading. *)
Definition resumed_fs : filesystem :=
  Fs (Readable (ref_dumps (JDict [(lit "saved_at", JStr (lit "2023-11-13 22:13:20"));
                                  (lit "items",
                                   JList [new_entry (lit "1699913600.5")
                                                    (lit "2023-11-13 22:13:20")
                                                    (lit "Summarize")
                                                    (lit "A calm beach scene.")])])))
     None.

(** A file that is not JSON, and one whose [items] is a number. *)
Definition garbled_fs : filesystem := Fs (Readable (lit "{oops")) None.
Definition numeric_items_fs : filesystem :=
  Fs (Readable (ref_dumps (JDict [(lit "items", JInt 5)]))) None.

(** ** Statements used by several results *)

(** The document [save_history_to_disk] hands to [json.dump]. *)
Definition saved_document (t : pystr) (h : list json) : json :=
  JDict [(lit "saved_at", JStr t); (lit "items", JList h)].

(** Text that [.encode("utf-8")] accepts: no lone surrogate in it. *)
Definition encodable (text : pystr) : bool := forallb scalar_value text.

(** What [json.load] makes of a file a save left: nothing but the document
    that was dumped, and that only when the dump was written in full (a file
    the dump left cut off does not parse). *)
Definition load_reads_saved (e : env) : Prop :=
  forall t h text failed v,
    write_chunks (json_chunks e (saved_document t h)) = (text, failed) ->
    json_loads e text = Some v ->
    failed = None /\ v = saved_document t h.

(** Distinct reads of the clock render as distinct [timestamp()] strings. *)
Definition clock_advances (e : env) : Prop :=
  forall i j, stamp (clock e i) = stamp (clock e j) -> i = j.

Definition ids (h : list json) : list (option json) := List.map entry_id h.

(** An id that is spent after [n] reads of the clock: a string that no read
    from the [n]-th on renders.  The id of an entry stamped by an earlier read
    is one, in this session or in the one that left the file. *)
Definition spent (e : env) (n : nat) (id : option json) : Prop :=
  exists s, id = Some (JStr s) /\ forall k, (n <= k)%nat -> stamp (clock e k) <> s.

(** Every entry has a spent id, and no id occurs twice. *)
Definition sound_history (e : env) (n : nat) (h : list json) : Prop :=
  Forall (spent e n) (ids h) /\ NoDup (ids h).

(** What a load of the file would put in the history is sound. *)
Definition sound_file (e : env) (n : nat) (f : file_state) : Prop :=
  match f with
  | Readable text =>
      forall d items,
        json_loads e text = Some (JDict d) ->
        get_default (lit "items") (JList []) d = JList items ->
        sound_history e n items
  | _ => True
  end.

Definition sound_world (e : env) (w : world) : Prop :=
  sound_history e (clock_reads w) (history (session w)) /\
  sound_file e (clock_reads w) (history_json (fs w)).

(** Induction on JSON values, with the hypothesis available for every item
    of a list and every value of a dict. *)
Fixpoint json_induction (P : json -> Prop)
    (Hnull : P JNull)
    (Hbool : forall b, P (JBool b))
    (Hint : forall z, P (JInt z))
    (Hstr : forall s, P (JStr s))
    (Hlist : forall l, Forall P l -> P (JList l))
    (Hdict : forall d, Forall (fun kv => P (snd kv)) d -> P (JDict d))
    (v : json) {struct v} : P v :=
  match v with
  | JNull => Hnull
  | JBool b => Hbool b
  | JInt z => Hint z
  | JStr s => Hstr s
  | JList l =>
      Hlist l
        ((fix items (l : list json) : Forall P l :=
            match l with
            | [] => Forall_nil P
            | x :: l' =>
                Forall_cons x
                  (json_induction P Hnull Hbool Hint Hstr Hlist Hdict x) (items l')
            end) l)
  | JDict d =>
      Hdict d
        ((fix members (d : list (pystr * json)) : Forall (fun kv => P (snd kv)) d :=
            match d with
            | [] => Forall_nil _
            | kv :: d' =>
                Forall_cons kv
                  (json_induction P Hnull Hbool Hint Hstr Hlist Hdict (snd kv))
                  (members d')
            end) d)
  end.

(** The next character, if any, is not a digit. *)
Definition no_digit_ahead (s : pystr) : Prop :=
  match s with
  | [] => True
  | c :: _ => is_digit c = false
  end.

(** The first character of a printed value: neither whitespace nor a closing
    bracket or brace. *)
Definition opens_value (s : pystr) : Prop :=
  match s with
  | [] => False
  | c :: _ => is_ws c = false /\ c <> 93 /\ c <> 125
  end.

(** A value is read back from its printed form, whatever follows it. *)
Definition reads_back (v : json) : Prop :=
  forall lvl fuel rest,
    no_digit_ahead rest ->
    (length (print_value lvl v) <= fuel)%nat ->
    parse_value fuel (print_value lvl v ++ rest) = Some (v, rest).

(** ** Shown and downloaded text *)

(** Line 165: what the sidebar shows of an answer [a] that is a string,
    [a if len(a) < 240 else a[:240] + "\u2026"]. *)
Definition preview (a : pystr) : pystr :=
  if (length a <? 240)%nat then a else firstn 240 a ++ [8230].

(** [download_text_bytes(text)]: the buffer holds the encoded text and is
    rewound, so a reader gets all of it. *)
Definition download_text_bytes (text : pystr) : option (list N) := utf8_encode text.

(** The data of the "Download last" button. *)
Inductive download : Type :=
| NoData                              (* the empty string given for an empty history *)
| Bytes (content : list N)
| DownloadRaised (exception : pystr).

(** Line 235: [download_text_bytes(history[-1]["answer"]) if history else ""]. *)
Definition download_last (h : list json) : download :=
  match last_entry h with
  | None => NoData
  | Some (JDict d) =>
      match assoc_get (lit "answer") d with
      | None => DownloadRaised (lit "KeyError")
      | Some (JStr a) =>
          match download_text_bytes a with
          | Some content => Bytes content
          | None => DownloadRaised (lit "UnicodeEncodeError")
          end
      | Some _ => DownloadRaised (lit "AttributeError")
      end
  | Some _ => DownloadRaised (lit "TypeError")
  end.

(** A continuation byte. *)
Definition is_continuation (b : N) : bool := (128 <=? b) && (b <? 192).

Definition cons_code (c : char) (r : option pystr) : option pystr :=
  match r with Some s => Some (c :: s) | None => None end.

(** Strict UTF-8 decoding, [bytes.decode("utf-8")]: overlong forms, surrogates
    and values above U+10FFFF are refused. *)
Fixpoint utf8_decode (bytes : list N) : option pystr :=
  match bytes with
  | [] => Some []
  | b :: r1 =>
      if b <? 128 then cons_code b (utf8_decode r1)
      else if b <? 192 then None
      else if b <? 224 then
        match r1 with
        | b2 :: r2 =>
            let c := (b - 192) * 64 + (b2 - 128) in
            if is_continuation b2 && (128 <=? c) then cons_code c (utf8_decode r2)
            else None
        | _ => None
        end
      else if b <? 240 then
        match r1 with
        | b2 :: b3 :: r3 =>
            let c := ((b - 224) * 64 + (b2 - 128)) * 64 + (b3 - 128) in
            if is_continuation b2 && is_continuation b3 && (2048 <=? c)
               && negb ((55296 <=? c) && (c <=? 57343))
            then cons_code c (utf8_decode r3)
            else None
        | _ => None
        end
      else if b <? 248 then
        match r1 with
        | b2 :: b3 :: b4 :: r4 =>
            let c := (((b - 240) * 64 + (b2 - 128)) * 64 + (b3 - 128)) * 64 + (b4 - 128) in
            if is_continuation b2 && is_continuation b3 && is_continuation b4
               && (65536 <=? c) && (c <? 1114112)
            then cons_code c (utf8_decode r4)
            else None
        | _ => None
        end
      else None
  end.

(** Line 158: the entries the sidebar lists, [reversed(history[-6:])]. *)
Definition sidebar_entries (h : list json) : list json :=
  rev (skipn (length h - 6) h).

(** Line 225: the exchanges the chat shows, [history[-10:]]. *)
Definition conversation_entries (h : list json) : list json :=
  skipn (length h - 10) h.

(** ** Statements of further results *)

(** Rerunning the script would leave the history as it is. *)
Definition synced (e : env) (w : world) : Prop :=
  history (session (hydrate e w)) = history (session w).

(** Two versions of one entry: the same value, or two dicts that agree on
    every key but [rating] and [pinned]. *)
Definition same_exchange (x y : json) : Prop :=
  x = y \/
  exists d d', x = JDict d /\ y = JDict d' /\
    forall k, k <> lit "rating" -> k <> lit "pinned" -> assoc_get k d' = assoc_get k d.

(** * Properties *)

(** ** Strings and dicts *)

Example strip_spaces : strip (lit "  Summarize this image ") = lit "Summarize this image".
Proof. reflexivity. Qed.

Example strip_blank : strip (lit "  ") = [].
Proof. reflexivity. Qed.

(** A tab, a no-break space and an em space are whitespace too. *)
Example strip_unicode_blank : strip [9; 160; 8195] = [].
Proof. reflexivity. Qed.

Example strip_keeps_inner_space : strip [32; 128512; 32; 97; 10] = [128512; 32; 97].
Proof. reflexivity. Qed.

(** The text of [json.dumps({"a": [1, -2], "b": "x\ny"}, ensure_ascii=False,
    indent=2)]; [34] is the quotation mark and [10] the newline. *)
Example ref_dumps_layout :
  ref_dumps (JDict [(lit "a", JList [JInt 1; JInt (-2)]); (lit "b", JStr [120; 10; 121])])
  = lit "{" ++ [10]
    ++ lit "  " ++ [34] ++ lit "a" ++ [34] ++ lit ": [" ++ [10]
    ++ lit "    1," ++ [10]
    ++ lit "    -2" ++ [10]
    ++ lit "  ]," ++ [10]
    ++ lit "  " ++ [34] ++ lit "b" ++ [34] ++ lit ": " ++ [34] ++ lit "x\ny" ++ [34] ++ [10]
    ++ lit "}".
Proof. reflexivity. Qed.

Example ref_loads_spaced :
  ref_loads (lit " { " ++ [34] ++ lit "items" ++ [34] ++ lit " : [ 1 , true,null ] } ")
  = Some (JDict [(lit "items", JList [JInt 1; JBool true; JNull])]).
Proof. reflexivity. Qed.

Example ref_loads_garbled : ref_loads (lit "{oops") = None.
Proof. reflexivity. Qed.

Lemma pystr_eqb_refl (a : pystr) : pystr_eqb a a = true.
Proof. unfold pystr_eqb. destruct (list_eq_dec N.eq_dec a a); congruence. Qed.

Lemma pystr_eqb_eq (a b : pystr) : pystr_eqb a b = true <-> a = b.
Proof.
  unfold pystr_eqb. destruct (list_eq_dec N.eq_dec a b); split; congruence.
Qed.

Lemma pystr_eqb_neq (a b : pystr) : a <> b -> pystr_eqb a b = false.
Proof.
  intro H. unfold pystr_eqb. destruct (list_eq_dec N.eq_dec a b); congruence.
Qed.

Lemma is_empty_true (s : pystr) : is_empty s = true <-> s = [].
Proof. destruct s; simpl; split; congruence. Qed.

Lemma is_empty_false (s : pystr) : is_empty s = false <-> s <> [].
Proof. destruct s; simpl; split; congruence. Qed.

Lemma assoc_get_set_same k v d : assoc_get k (assoc_set k v d) = Some v.
Proof.
  induction d as [|[k' v'] d IH]; simpl.
  - now rewrite pystr_eqb_refl.
  - destruct (pystr_eqb k k') eqn:E; simpl; rewrite E; auto.
Qed.

Lemma assoc_get_set_other k k' v d :
  k <> k' -> assoc_get k (assoc_set k' v d) = assoc_get k d.
Proof.
  intro Hk. induction d as [|[k0 v0] d IH]; simpl.
  - now rewrite (pystr_eqb_neq k k').
  - destruct (pystr_eqb k' k0) eqn:E; simpl.
    + apply pystr_eqb_eq in E. subst k0. now rewrite (pystr_eqb_neq k k').
    + now rewrite IH.
Qed.

(** ** Saving never touches the session *)

Lemma save_session e w : session (fst (save_history_to_disk e w)) = session w.
Proof.
  unfold save_history_to_disk.
  destruct (persist_opt_in (session w)); simpl; auto.
  destruct (write_denied (fs w)); simpl; auto.
  now destruct (write_chunks _).
Qed.

Lemma save_events_no_uncaught e w x :
  ~ In (Uncaught x) (snd (save_history_to_disk e w)).
Proof.
  unfold save_history_to_disk.
  destruct (persist_opt_in (session w)); simpl; auto.
  destruct (write_denied (fs w)); simpl; [intuition congruence|].
  destruct (write_chunks _) as [text [chunk|]]; simpl; intuition congruence.
Qed.

(** The export reads the clock and touches nothing else, whether the
    encoding raises or not. *)
Lemma export_clicked_world e w :
  fst (export_clicked e w) = World (session w) (fs w) (S (clock_reads w)).
Proof.
  unfold export_clicked, export_history_bytes, now_iso.
  now destruct (utf8_encode _).
Qed.

Lemma save_events_no_error e w m :
  ~ In (StError m) (snd (save_history_to_disk e w)).
Proof.
  unfold save_history_to_disk.
  destruct (persist_opt_in (session w)); simpl; auto.
  destruct (write_denied (fs w)); simpl; [intuition congruence|].
  destruct (write_chunks _) as [text [chunk|]]; simpl; intuition congruence.
Qed.

(** ** The send handler *)

(** What a send that passes its three checks does, whatever
    [generate_answer] comes to. *)
Lemma send_clicked_accepted e prompt reply w img :
  API_KEY e <> [] ->
  current_image (session w) = Some img ->
  strip prompt <> [] ->
  let answer := match generate_answer e (strip prompt) img reply with
                | Returned text => text
                | Raised msg => lit "Error: " ++ msg
                end in
  let entry := new_entry (stamp (clock e (clock_reads w)))
                         (iso (clock e (S (clock_reads w))))
                         (strip prompt) answer in
  let out := send_clicked e prompt reply w in
  session (fst out) =
    Session (history (session w) ++ [entry])
            (current_image (session w))
            (persist_opt_in (session w))
            (Achievements (questions_today (achievements (session w)) + 1)
                          (first_upload_done (achievements (session w))))
  /\ (forall x, ~ In (Uncaught x) (snd out)).
Proof.
  intros Hkey Himg Hq answer entry out.
  subst out. unfold send_clicked.
  apply is_empty_false in Hkey. rewrite Hkey, Himg.
  apply is_empty_false in Hq. rewrite Hq.
  fold answer. unfold now_stamp, now_iso. cbn [session fs clock_reads].
  fold entry.
  match goal with
  | |- context [save_history_to_disk e ?w1] =>
      pose proof (save_session e w1) as Hs;
      pose proof (save_events_no_uncaught e w1) as Hu;
      destruct (save_history_to_disk e w1) as [w2 ev]
  end.
  cbn [fst snd] in *. split.
  - rewrite Hs. unfold with_session, with_achievements, with_history. cbn.
    rewrite ?Himg. reflexivity.
  - intros x Hin. apply in_app_or in Hin. destruct Hin as [Hin|Hin].
    + exact (Hu x Hin).
    + simpl in Hin. intuition congruence.
Qed.

(** C1 (as amended).  The send handler checks, in this order, that
    [GOOGLE_API_KEY] is not empty, that an image is set and that the trimmed
    question is not empty, and stops at the first check that fails.  When the
    key is empty it shows the configuration error and returns the world it was
    given, whatever the image and the question are, so no entry is appended and
    [questions_today] keeps its value; the other two messages are shown only
    when the checks before them passed. *)
Theorem send_checks_in_order (e : env) (prompt : pystr)
    (reply : pystr -> image -> result) (w : world) :
  (API_KEY e = [] ->
     send_clicked e prompt reply w = (w, [StError msg_no_api_key])) /\
  (API_KEY e <> [] -> current_image (session w) = None ->
     send_clicked e prompt reply w = (w, [StError msg_no_image])) /\
  (API_KEY e <> [] -> current_image (session w) <> None -> strip prompt = [] ->
     send_clicked e prompt reply w = (w, [StError msg_no_question])).
Proof.
  unfold send_clicked. repeat split.
  - intros ->. reflexivity.
  - intros Hkey ->. apply is_empty_false in Hkey. now rewrite Hkey.
  - intros Hkey Himg Hq. apply is_empty_false in Hkey. rewrite Hkey, Hq.
    destruct (current_image (session w)); [reflexivity|congruence].
Qed.

Lemma send_checks_in_order_witness :
  API_KEY keyless_env = [] /\
  current_image (session (initial_world empty_fs)) = None /\
  strip (lit "  ") = [] /\
  send_clicked keyless_env (lit "  ") beach_stub (initial_world empty_fs)
    = (initial_world empty_fs, [StError msg_no_api_key]).
Proof.
  split; [reflexivity|]. split; [reflexivity|]. split; [reflexivity|].
  apply (proj1 (send_checks_in_order keyless_env (lit "  ") beach_stub
                  (initial_world empty_fs))).
  reflexivity.
Defined.

(** C1 (as stated) fails when the key is present and the model initialisation
    raised: the model is not configured, and the send appends an entry and
    counts the question. *)
Lemma send_with_failed_model_init_appends :
  let out := send_clicked failed_init_env (lit "Summarize") beach_stub ready_world in
  model_configured failed_init_env = false /\
  history (session (fst out)) =
    [new_entry (lit "1700000000.5") (lit "2023-11-14 22:13:20") (lit "Summarize")
       (lit "Error: Generative model not configured (missing/invalid GOOGLE_API_KEY).")] /\
  questions_today (achievements (session (fst out))) = 1%Z /\
  history (session ready_world) = [] /\
  questions_today (achievements (session ready_world)) = 0%Z.
Proof. vm_compute. repeat split. Qed.

(** C2 (as amended).  When the three checks pass and the collaborator returns
    [text], the handler appends exactly one entry to the history: its question
    is the trimmed prompt, its answer is [text] when [text] is not empty and
    the placeholder "(No text returned)" when it is, its rating is 0, it is not
    pinned, and its id and timestamp are the renderings of the two clock reads
    made while it is built; [questions_today] grows by one and the image and
    the opt-in flag are untouched. *)
Theorem send_appends_answer (e : env) (prompt : pystr)
    (reply : pystr -> image -> result) (w : world) (img : image) (text : pystr) :
  model_configured e = true ->
  current_image (session w) = Some img ->
  strip prompt <> [] ->
  reply (strip prompt) img = Returned text ->
  let answer := if is_empty text then lit "(No text returned)" else text in
  let entry := JDict [(lit "id", JStr (stamp (clock e (clock_reads w))));
                      (lit "timestamp", JStr (iso (clock e (S (clock_reads w)))));
                      (lit "question", JStr (strip prompt));
                      (lit "answer", JStr answer);
                      (lit "rating", JInt 0);
                      (lit "pinned", JBool false)] in
  let w' := fst (send_clicked e prompt reply w) in
  history (session w') = history (session w) ++ [entry] /\
  (text <> [] -> answer = text) /\
  questions_today (achievements (session w'))
    = (questions_today (achievements (session w)) + 1)%Z /\
  first_upload_done (achievements (session w'))
    = first_upload_done (achievements (session w)) /\
  current_image (session w') = current_image (session w) /\
  persist_opt_in (session w') = persist_opt_in (session w).
Proof.
  intros Hm Himg Hq Hr answer entry w'.
  assert (Hkey : API_KEY e <> []).
  { unfold model_configured in Hm. apply andb_prop in Hm. destruct Hm as [Hm _].
    apply negb_true_iff in Hm. now apply is_empty_false. }
  destruct (send_clicked_accepted e prompt reply w img Hkey Himg Hq) as [Hs _].
  fold w' in Hs. rewrite Hs. cbn [history current_image persist_opt_in
    achievements questions_today first_upload_done].
  unfold generate_answer. rewrite Hm, Hr. cbn [negb].
  repeat split.
  subst answer. intro Ht. apply is_empty_false in Ht. now rewrite Ht.
Qed.

Lemma send_appends_answer_witness :
  history (session (fst (send_clicked configured_env (lit "  Summarize ") beach_stub ready_world)))
    = [new_entry (lit "1700000000.5") (lit "2023-11-14 22:13:20")
                 (lit "Summarize") (lit "A calm beach scene.")] /\
  questions_today (achievements (session
     (fst (send_clicked configured_env (lit "  Summarize ") beach_stub ready_world)))) = 1%Z.
Proof.
  pose proof (send_appends_answer configured_env (lit "  Summarize ") beach_stub
                ready_world sample_image (lit "A calm beach scene.")
                eq_refl eq_refl) as H.
  cbv zeta in H.
  destruct H as (Hh & _ & Hq & _).
  - vm_compute. discriminate.
  - reflexivity.
  - split; [rewrite Hh; reflexivity | rewrite Hq; reflexivity].
Defined.

(** C2 (as stated) fails when the collaborator returns the empty text: the
    answer recorded is the placeholder, not the text returned. *)
Lemma send_empty_text_records_placeholder :
  let out := send_clicked configured_env (lit "Summarize") silent_stub ready_world in
  model_configured configured_env = true /\
  silent_stub (strip (lit "Summarize")) sample_image = Returned [] /\
  List.map (field (lit "answer")) (history (session (fst out)))
    = [Some (JStr (lit "(No text returned)"))] /\
  lit "(No text returned)" <> [].
Proof. vm_compute. repeat split. discriminate. Qed.



(** C4 (as amended).  With an API key present, a send with no image set shows
    "Please upload an image first.", and a send with an image set and a
    question that is empty after trimming shows "Please enter a question.";
    in both cases the handler returns the world it was given: nothing is
    appended and the session state is unchanged. *)
Theorem send_missing_input (e : env) (prompt : pystr)
    (reply : pystr -> image -> result) (w : world) :
  API_KEY e <> [] ->
  (current_image (session w) = None ->
     send_clicked e prompt reply w = (w, [StError msg_no_image])) /\
  (forall img, current_image (session w) = Some img -> strip prompt = [] ->
     send_clicked e prompt reply w = (w, [StError msg_no_question])).
Proof.
  intro Hkey. apply is_empty_false in Hkey. unfold send_clicked. rewrite Hkey.
  split.
  - intros ->. reflexivity.
  - intros img -> Hq. rewrite Hq. reflexivity.
Qed.

Lemma send_missing_input_witness :
  send_clicked configured_env (lit "Summarize") beach_stub
      (World default_session empty_fs 0)
    = (World default_session empty_fs 0, [StError msg_no_image]) /\
  send_clicked configured_env (lit "  ") beach_stub ready_world
    = (ready_world, [StError msg_no_question]).
Proof.
  assert (Hkey : API_KEY configured_env <> []) by (vm_compute; discriminate).
  split.
  - apply (proj1 (send_missing_input configured_env (lit "Summarize") beach_stub
                    (World default_session empty_fs 0) Hkey)).
    reflexivity.
  - apply (proj2 (send_missing_input configured_env (lit "  ") beach_stub
                    ready_world Hkey) sample_image); reflexivity.
Defined.

(** C4 (as stated) fails when [GOOGLE_API_KEY] is empty: a send with no image
    set shows the configuration error, not the missing-input one. *)
Lemma send_no_image_no_key_reports_configuration :
  current_image (session (World default_session empty_fs 0)) = None /\
  snd (send_clicked keyless_env (lit "Summarize") beach_stub
         (World default_session empty_fs 0)) = [StError msg_no_api_key] /\
  msg_no_api_key <> msg_no_image /\
  msg_no_api_key <> msg_no_question.
Proof. vm_compute. repeat split; discriminate. Qed.

(** ** The reference codec reads back what it prints *)

Lemma skip_ws_newline_indent lvl s : skip_ws (newline_indent lvl ++ s) = skip_ws s.
Proof.
  unfold newline_indent. generalize (2 * lvl)%nat. intro n.
  change (skip_ws ((10 :: repeat 32 n) ++ s)) with (skip_ws (repeat 32 n ++ s)).
  induction n as [|n IH]; [reflexivity|exact IH].
Qed.

Lemma skip_ws_opens s : opens_value s -> skip_ws s = s.
Proof.
  destruct s as [|c s]; simpl; [tauto|]. intros [H _]. now rewrite H.
Qed.

Lemma skip_ws_idempotent s : skip_ws (skip_ws s) = skip_ws s.
Proof.
  induction s as [|c s IH]; simpl; auto.
  destruct (is_ws c) eqn:E; auto. simpl. now rewrite E.
Qed.

Lemma parse_value_skip_ws fuel s : parse_value fuel (skip_ws s) = parse_value fuel s.
Proof. destruct fuel; simpl; auto. now rewrite skip_ws_idempotent. Qed.

Lemma parse_members_skip_ws fuel s : parse_members fuel (skip_ws s) = parse_members fuel s.
Proof. destruct fuel; simpl; auto. now rewrite skip_ws_idempotent. Qed.

Lemma parse_items_skip_ws fuel s : parse_items fuel (skip_ws s) = parse_items fuel s.
Proof. destruct fuel; simpl; auto. now rewrite parse_value_skip_ws. Qed.

Lemma unhex_hex_digit d : d < 16 -> unhex (hex_digit d) = Some d.
Proof.
  intro Hd. unfold hex_digit, unhex.
  destruct (N.ltb_spec d 10).
  - replace ((48 <=? 48 + d) && (48 + d <=? 57)) with true.
    + f_equal. lia.
    + symmetry. apply andb_true_intro. split; apply N.leb_le; lia.
  - replace ((48 <=? 87 + d) && (87 + d <=? 57)) with false.
    + replace ((97 <=? 87 + d) && (87 + d <=? 102)) with true.
      * f_equal. lia.
      * symmetry. apply andb_true_intro. split; apply N.leb_le; lia.
    + symmetry. apply andb_false_intro2. apply N.leb_gt. lia.
Qed.

Lemma unhex4_control c :
  c < 32 -> unhex4 48 48 (hex_digit (c / 16)) (hex_digit (c mod 16)) = Some c.
Proof.
  intro Hc. unfold unhex4.
  assert (H1 : c / 16 < 16) by (apply N.Div0.div_lt_upper_bound; lia).
  assert (H2 : c mod 16 < 16) by (apply N.mod_lt; lia).
  rewrite (unhex_hex_digit _ H1), (unhex_hex_digit _ H2).
  change (unhex 48) with (Some 0). cbv iota beta. f_equal.
  pose proof (N.div_mod c 16). lia.
Qed.

Lemma parse_string_body_escape c tail :
  parse_string_body (escape_char c ++ tail) = cons_char c (parse_string_body tail).
Proof.
  unfold escape_char.
  destruct (N.eqb_spec c 34) as [->|H34]; [reflexivity|].
  destruct (N.eqb_spec c 92) as [->|H92]; [reflexivity|].
  destruct (N.eqb_spec c 10) as [->|H10]; [reflexivity|].
  destruct (N.eqb_spec c 13) as [->|H13]; [reflexivity|].
  destruct (N.eqb_spec c 9) as [->|H9]; [reflexivity|].
  destruct (N.eqb_spec c 8) as [->|H8]; [reflexivity|].
  destruct (N.eqb_spec c 12) as [->|H12]; [reflexivity|].
  destruct (N.ltb_spec c 32) as [Hlt|Hge].
  - change (parse_string_body
              ([92; 117; 48; 48; hex_digit (c / 16); hex_digit (c mod 16)] ++ tail))
      with (match unhex4 48 48 (hex_digit (c / 16)) (hex_digit (c mod 16)) with
            | Some cp => cons_char cp (parse_string_body tail)
            | None => None
            end).
    now rewrite unhex4_control.
  - cbn [app parse_string_body].
    rewrite (proj2 (N.eqb_neq c 34) H34), (proj2 (N.eqb_neq c 92) H92).
    now rewrite (proj2 (N.ltb_ge c 32) Hge).
Qed.

Lemma parse_string_body_printed s rest :
  parse_string_body (flat_map escape_char s ++ 34 :: rest) = Some (s, rest).
Proof.
  induction s as [|c s IH]; [reflexivity|].
  cbn [flat_map]. rewrite <- app_assoc, parse_string_body_escape, IH. reflexivity.
Qed.

Lemma print_uint_digits u :
  match print_uint u with
  | [] => u = Decimal.Nil
  | c :: _ => is_digit c = true
  end.
Proof. destruct u; simpl; auto. Qed.

Lemma parse_digits_printed u rest :
  no_digit_ahead rest -> parse_digits (print_uint u ++ rest) = (u, rest).
Proof.
  intro Hrest.
  induction u as [|u IH|u IH|u IH|u IH|u IH|u IH|u IH|u IH|u IH|u IH];
    try (cbn [print_uint app parse_digits]; rewrite IH; reflexivity).
  cbn [print_uint app]. destruct rest as [|c rest]; [reflexivity|].
  simpl in Hrest. cbn [parse_digits]. now rewrite Hrest.
Qed.

Lemma parse_int_unsigned u rest :
  u <> Decimal.Nil -> no_digit_ahead rest ->
  parse_int (print_uint u ++ rest) = Some (JInt (Z.of_int (Decimal.Pos u)), rest).
Proof.
  intros Hu Hrest. unfold parse_int.
  pose proof (parse_digits_printed u rest Hrest) as Hd.
  pose proof (print_uint_digits u) as Hc.
  destruct (print_uint u ++ rest) as [|c s] eqn:E.
  - destruct (print_uint u); [congruence | discriminate].
  - assert (Hdig : is_digit c = true).
    { destruct (print_uint u) as [|c' t]; [congruence|]. inversion E; subst. exact Hc. }
    assert (H45 : (c =? 45) = false).
    { apply N.eqb_neq. intros ->. discriminate. }
    rewrite H45, Hd. destruct u; congruence.
Qed.

Lemma parse_int_printed z rest :
  no_digit_ahead rest -> parse_int (print_int z ++ rest) = Some (JInt z, rest).
Proof.
  intro Hrest. unfold print_int.
  destruct z as [|p|p].
  - change (Z.to_int 0) with (Decimal.Pos (Decimal.D0 Decimal.Nil)). cbv beta iota.
    rewrite parse_int_unsigned; [reflexivity|discriminate|assumption].
  - change (Z.to_int (Z.pos p)) with (Decimal.Pos (Pos.to_uint p)). cbv beta iota.
    rewrite parse_int_unsigned.
    + pose proof (DecimalZ.of_to (Z.pos p)) as Hz.
      change (Z.to_int (Z.pos p)) with (Decimal.Pos (Pos.to_uint p)) in Hz.
      now rewrite Hz.
    + apply DecimalPos.Unsigned.to_uint_nonnil.
    + assumption.
  - change (Z.to_int (Z.neg p)) with (Decimal.Neg (Pos.to_uint p)). cbv beta iota.
    change (parse_int ((45 :: print_uint (Pos.to_uint p)) ++ rest))
      with (match parse_digits (print_uint (Pos.to_uint p) ++ rest) with
            | (Decimal.Nil, _) => None
            | (u, rest') => Some (JInt (Z.of_int (Decimal.Neg u)), rest')
            end).
    rewrite parse_digits_printed by assumption.
    pose proof (DecimalPos.Unsigned.to_uint_nonnil p) as Hn.
    pose proof (DecimalZ.of_to (Z.neg p)) as Hz.
    change (Z.to_int (Z.neg p)) with (Decimal.Neg (Pos.to_uint p)) in Hz.
    destruct (Pos.to_uint p); try congruence.
Qed.

Lemma print_int_head z :
  exists c t, print_int z = c :: t /\ (is_digit c = true \/ c = 45).
Proof.
  unfold print_int. destruct (Z.to_int z) as [u|u] eqn:E.
  - assert (Hu : u <> Decimal.Nil).
    { destruct z; simpl in E; inversion E; subst;
        [discriminate | apply DecimalPos.Unsigned.to_uint_nonnil]. }
    pose proof (print_uint_digits u) as H.
    destruct (print_uint u) as [|c t]; [congruence|]. eauto.
  - eauto.
Qed.

Lemma print_value_opens lvl v : opens_value (print_value lvl v).
Proof.
  destruct v as [|[|]|z|s|[|x l]|[|kv d]]; try (simpl; repeat split; discriminate).
  simpl. destruct (print_int_head z) as (c & t & E & [Hd|Hc]); rewrite E; [|subst c].
  - unfold is_digit in Hd. apply andb_prop in Hd. destruct Hd as [H1 H2].
    apply N.leb_le in H1, H2. unfold is_ws. repeat split.
    + repeat (apply orb_false_intro); apply N.eqb_neq; lia.
    + lia.
    + lia.
  - repeat split; discriminate.
Qed.

Lemma join_items_opens lvl (texts : list pystr) tail :
  texts <> [] -> Forall opens_value texts -> opens_value (join_items lvl texts ++ tail).
Proof.
  intros Hne Hall. destruct texts as [|x texts]; [congruence|].
  inversion Hall as [|? ? Hx _]; subst.
  assert (H : forall t, opens_value (x ++ t)).
  { intro t. destruct x; [contradiction | exact Hx]. }
  destruct texts; simpl.
  - apply H.
  - rewrite <- app_assoc. apply H.
Qed.

Lemma parse_value_eq fuel s :
  parse_value (S fuel) s =
    match skip_ws s with
    | [] => None
    | c :: s' =>
        if c =? 110 then keyword (lit "ull") JNull s'
        else if c =? 116 then keyword (lit "rue") (JBool true) s'
        else if c =? 102 then keyword (lit "alse") (JBool false) s'
        else if c =? 34 then
          match parse_string_body s' with
          | Some (str, rest) => Some (JStr str, rest)
          | None => None
          end
        else if c =? 91 then
          match skip_ws s' with
          | [] => None
          | c1 :: s1 =>
              if c1 =? 93 then Some (JList [], s1)
              else
                match parse_items fuel s' with
                | Some (items, rest) => Some (JList items, rest)
                | None => None
                end
          end
        else if c =? 123 then
          match skip_ws s' with
          | [] => None
          | c1 :: s1 =>
              if c1 =? 125 then Some (JDict [], s1)
              else
                match parse_members fuel s' with
                | Some (fields, rest) => Some (JDict fields, rest)
                | None => None
                end
          end
        else parse_int (c :: s')
    end.
Proof. reflexivity. Qed.

Lemma parse_items_eq fuel s :
  parse_items (S fuel) s =
    match parse_value fuel s with
    | None => None
    | Some (v, rest) =>
        match skip_ws rest with
        | [] => None
        | c :: rest' =>
            if c =? 93 then Some ([v], rest')
            else if c =? 44 then
              match parse_items fuel rest' with
              | Some (vs, rest'') => Some (v :: vs, rest'')
              | None => None
              end
            else None
        end
    end.
Proof. reflexivity. Qed.

Lemma parse_members_eq fuel s :
  parse_members (S fuel) s =
    match skip_ws s with
    | [] => None
    | q :: s0 =>
        if q =? 34 then
          match parse_string_body s0 with
          | None => None
          | Some (k, s1) =>
              match skip_ws s1 with
              | [] => None
              | colon :: s2 =>
                  if colon =? 58 then
                    match parse_value fuel s2 with
                    | None => None
                    | Some (v, rest) =>
                        match skip_ws rest with
                        | [] => None
                        | c :: rest' =>
                            if c =? 125 then Some ([(k, v)], rest')
                            else if c =? 44 then
                              match parse_members fuel rest' with
                              | Some (kvs, rest'') => Some ((k, v) :: kvs, rest'')
                              | None => None
                              end
                            else None
                        end
                    end
                  else None
              end
          end
        else None
    end.
Proof. reflexivity. Qed.

Lemma parse_items_indented fuel lvl s :
  parse_items fuel (newline_indent lvl ++ s) = parse_items fuel s.
Proof.
  rewrite <- parse_items_skip_ws, skip_ws_newline_indent. apply parse_items_skip_ws.
Qed.

Lemma parse_members_indented fuel lvl s :
  parse_members fuel (newline_indent lvl ++ s) = parse_members fuel s.
Proof.
  rewrite <- parse_members_skip_ws, skip_ws_newline_indent. apply parse_members_skip_ws.
Qed.

Lemma parse_value_space fuel s : parse_value fuel (32 :: s) = parse_value fuel s.
Proof.
  rewrite <- parse_value_skip_ws.
  change (skip_ws (32 :: s)) with (skip_ws s). apply parse_value_skip_ws.
Qed.

Lemma no_digit_ahead_newline lvl s : no_digit_ahead (newline_indent lvl ++ s).
Proof. reflexivity. Qed.

Lemma parse_items_printed (items : list json) :
  items <> [] -> Forall reads_back items ->
  forall lvl fuel closing rest,
    (length (join_items (S lvl) (List.map (print_value (S lvl)) items)) < fuel)%nat ->
    parse_items fuel
      (join_items (S lvl) (List.map (print_value (S lvl)) items)
         ++ newline_indent closing ++ 93 :: rest)
    = Some (items, rest).
Proof.
  intros Hne Hall lvl. induction Hall as [|x items Hx Hall IH]; [congruence|].
  intros fuel closing rest Hfuel.
  destruct fuel as [|fuel]; [lia|]. rewrite parse_items_eq.
  destruct items as [|y items].
  - cbn [List.map join_items] in *.
    rewrite (Hx (S lvl) fuel _ (no_digit_ahead_newline _ _)) by lia.
    rewrite skip_ws_newline_indent. reflexivity.
  - change (join_items (S lvl) (List.map (print_value (S lvl)) (x :: y :: items)))
      with (print_value (S lvl) x ++ 44 :: newline_indent (S lvl)
              ++ join_items (S lvl) (List.map (print_value (S lvl)) (y :: items))) in *.
    rewrite length_app in Hfuel. cbn [length] in Hfuel. rewrite length_app in Hfuel.
    rewrite <- app_assoc. cbn [app].
    rewrite Hx by (try reflexivity; lia).
    cbn [skip_ws is_ws N.eqb Pos.eqb orb]. cbv iota.
    rewrite <- app_assoc, parse_items_indented.
    rewrite IH by (try discriminate; lia). reflexivity.
Qed.

Lemma parse_members_printed (fields : list (pystr * json)) :
  fields <> [] -> Forall (fun kv => reads_back (snd kv)) fields ->
  forall lvl fuel closing rest,
    (length (join_items (S lvl)
       (List.map (fun kv => print_string (fst kv) ++ (58 :: 32 :: print_value (S lvl) (snd kv))%N)
                 fields)) < fuel)%nat ->
    parse_members fuel
      (join_items (S lvl)
         (List.map (fun kv => print_string (fst kv) ++ 58 :: 32 :: print_value (S lvl) (snd kv))
                   fields)
         ++ newline_indent closing ++ 125 :: rest)
    = Some (fields, rest).
Proof.
  intros Hne Hall lvl. induction Hall as [|[k x] fields Hx Hall IH]; [congruence|].
  intros fuel closing rest Hfuel.
  destruct fuel as [|fuel]; [lia|]. rewrite parse_members_eq.
  cbn [fst snd] in Hx.
  set (member := fun kv : pystr * json =>
                   print_string (fst kv) ++ 58 :: 32 :: print_value (S lvl) (snd kv)) in *.
  assert (Hhead : forall tail,
            (length (print_value (S lvl) x) <= fuel)%nat -> no_digit_ahead tail ->
            (member (k, x) ++ tail) = 34 :: flat_map escape_char k ++ 34 :: 58 :: 32
                                         :: print_value (S lvl) x ++ tail).
  { intros tail _ _. unfold member, print_string. cbn [fst snd app].
    rewrite <- !app_assoc. reflexivity. }
  assert (Hlen : (length (print_value (S lvl) x) < length (member (k, x)))%nat).
  { unfold member, print_string. cbn [fst snd length]. rewrite !length_app. cbn [length]. lia. }
  destruct fields as [|kv fields].
  - cbn [List.map join_items] in *.
    rewrite Hhead by (try apply no_digit_ahead_newline; lia).
    cbn [skip_ws is_ws N.eqb Pos.eqb orb]. cbv iota.
    rewrite parse_string_body_printed.
    cbn [skip_ws is_ws N.eqb Pos.eqb orb]. cbv iota.
    rewrite parse_value_space.
    rewrite (Hx (S lvl) fuel _ (no_digit_ahead_newline _ _)) by lia.
    rewrite skip_ws_newline_indent. reflexivity.
  - change (join_items (S lvl) (List.map member ((k, x) :: kv :: fields)))
      with (member (k, x) ++ 44 :: newline_indent (S lvl)
              ++ join_items (S lvl) (List.map member (kv :: fields))) in *.
    rewrite length_app in Hfuel. cbn [length] in Hfuel. rewrite length_app in Hfuel.
    rewrite <- app_assoc. cbn [app].
    rewrite Hhead by (try reflexivity; lia).
    cbn [skip_ws is_ws N.eqb Pos.eqb orb]. cbv iota.
    rewrite parse_string_body_printed.
    cbn [skip_ws is_ws N.eqb Pos.eqb orb]. cbv iota.
    rewrite parse_value_space.
    rewrite Hx by (try reflexivity; lia).
    cbn [skip_ws is_ws N.eqb Pos.eqb orb]. cbv iota.
    rewrite <- app_assoc, parse_members_indented.
    rewrite IH by (try discriminate; lia). reflexivity.
Qed.

Lemma print_value_reads_back (v : json) : reads_back v.
Proof.
  induction v as [|b|z|s|l IH|d IH] using json_induction;
    intros lvl fuel rest Hrest Hfuel.
  - destruct fuel as [|fuel]; [simpl in Hfuel; lia|]. reflexivity.
  - destruct fuel as [|fuel]; [destruct b; simpl in Hfuel; lia|].
    destruct b; reflexivity.
  - destruct fuel as [|fuel].
    { destruct (print_int_head z) as (c & t & E & _). simpl in Hfuel.
      rewrite E in Hfuel. simpl in Hfuel. lia. }
    rewrite parse_value_eq. cbn [print_value].
    assert (Hopen : opens_value (print_int z ++ rest)).
    { pose proof (print_value_opens lvl (JInt z)) as H. cbn [print_value] in H.
      destruct (print_int z); [contradiction | exact H]. }
    rewrite (skip_ws_opens _ Hopen).
    pose proof (parse_int_printed z rest Hrest) as Hp.
    destruct (print_int_head z) as (c & t & E & Hc).
    rewrite E in *. cbn [app] in *.
    assert (Hne : forall k, (k < 45 \/ 57 < k) -> (c =? k) = false).
    { intros k Hk. apply N.eqb_neq. destruct Hc as [Hd| ->]; [|lia].
      unfold is_digit in Hd. apply andb_prop in Hd. destruct Hd as [H1 H2].
      apply N.leb_le in H1, H2. lia. }
    rewrite !Hne by lia. exact Hp.
  - destruct fuel as [|fuel]; [simpl in Hfuel; lia|].
    rewrite parse_value_eq. cbn [print_value]. unfold print_string.
    cbn [app skip_ws is_ws N.eqb Pos.eqb orb]. cbv iota.
    rewrite <- app_assoc. cbn [app].
    now rewrite parse_string_body_printed.
  - destruct l as [|x l].
    { destruct fuel as [|fuel]; [simpl in Hfuel; lia|]. reflexivity. }
    destruct fuel as [|fuel]; [simpl in Hfuel; lia|].
    rewrite parse_value_eq.
    change (print_value lvl (JList (x :: l)))
      with (91 :: newline_indent (S lvl)
               ++ join_items (S lvl) (List.map (print_value (S lvl)) (x :: l))
               ++ newline_indent lvl ++ [93]) in *.
    cbn [app skip_ws is_ws N.eqb Pos.eqb orb]. cbv iota.
    rewrite <- !app_assoc. cbn [app].
    rewrite skip_ws_newline_indent, parse_items_indented.
    match goal with
    | |- context [skip_ws ?text] => assert (Hopen : opens_value text)
    end.
    { apply join_items_opens; [discriminate|].
      apply Forall_forall. intros t Ht. apply in_map_iff in Ht.
      destruct Ht as (y & <- & _). apply print_value_opens. }
    rewrite skip_ws_opens by exact Hopen.
    rewrite parse_items_printed; try discriminate; try assumption.
    + match type of Hopen with
      | opens_value ?text => destruct text as [|c1 s1]; [contradiction|]
      end.
      destruct Hopen as (_ & H93 & _).
      now rewrite (proj2 (N.eqb_neq c1 93) H93).
    + cbn [length] in Hfuel. rewrite !length_app in Hfuel. cbn [length] in Hfuel. lia.
  - destruct d as [|kv d].
    { destruct fuel as [|fuel]; [simpl in Hfuel; lia|]. reflexivity. }
    destruct fuel as [|fuel]; [simpl in Hfuel; lia|].
    rewrite parse_value_eq.
    set (member := fun kv : pystr * json =>
                     print_string (fst kv) ++ 58 :: 32 :: print_value (S lvl) (snd kv)).
    change (print_value lvl (JDict (kv :: d)))
      with (123 :: newline_indent (S lvl)
                ++ join_items (S lvl) (List.map member (kv :: d))
                ++ newline_indent lvl ++ [125]) in *.
    cbn [app skip_ws is_ws N.eqb Pos.eqb orb]. cbv iota.
    rewrite <- !app_assoc. cbn [app].
    rewrite skip_ws_newline_indent, parse_members_indented.
    match goal with
    | |- context [skip_ws ?text] => assert (Hopen : opens_value text)
    end.
    { apply join_items_opens; [discriminate|].
      apply Forall_forall. intros t Ht. apply in_map_iff in Ht.
      destruct Ht as (y & <- & _). unfold member, print_string. simpl.
      repeat split; discriminate. }
    rewrite skip_ws_opens by exact Hopen.
    unfold member at 2. rewrite parse_members_printed; try discriminate; try assumption.
    + fold member.
      match type of Hopen with
      | opens_value ?text => destruct text as [|c1 s1]; [contradiction|]
      end.
      destruct Hopen as (_ & _ & H125).
      now rewrite (proj2 (N.eqb_neq c1 125) H125).
    + fold member. cbn [length] in Hfuel. rewrite !length_app in Hfuel.
      cbn [length] in Hfuel. lia.
Qed.

(** [ref_loads] inverts [ref_dumps]. *)
Lemma ref_loads_dumps (v : json) : ref_loads (ref_dumps v) = Some v.
Proof.
  unfold ref_loads, ref_dumps.
  pose proof (print_value_reads_back v 0%nat (S (length (print_value 0 v))) [] I) as H.
  rewrite app_nil_r in H. rewrite H by lia. reflexivity.
Qed.

Lemma print_int_injective (a b : Z) : print_int a = print_int b -> a = b.
Proof.
  intro H.
  pose proof (parse_int_printed a [] I) as Ha.
  pose proof (parse_int_printed b [] I) as Hb.
  rewrite H, Hb in Ha. now inversion Ha.
Qed.

(** ** Persistence *)

Lemma load_after_write e w text :
  history_json (fs w) = Readable text ->
  forall d items,
    json_loads e text = Some (JDict d) ->
    get_default (lit "items") (JList []) d = JList items ->
    load_history_from_disk e w = with_session (with_history items (session w)) w.
Proof.
  intros Hf d items Hl Hi. unfold load_history_from_disk. now rewrite Hf, Hl, Hi.
Qed.

(** *** Writing piece by piece *)

Lemma utf8_char_defined c : scalar_value c = true -> exists b, utf8_char c = Some b.
Proof.
  unfold scalar_value, utf8_char. intro H. apply andb_prop in H. destruct H as [H1 H2].
  apply negb_true_iff in H2. rewrite H2, H1.
  destruct (c <? 128); [eauto|]. destruct (c <? 2048); [eauto|].
  destruct (c <? 65536); eauto.
Qed.

Lemma utf8_encode_defined text :
  forallb scalar_value text = true -> exists b, utf8_encode text = Some b.
Proof.
  induction text as [|c text IH]; [now exists []|].
  cbn [forallb utf8_encode]. intro H. apply andb_prop in H. destruct H as [Hc Ht].
  destruct (utf8_char_defined c Hc) as (b & ->).
  destruct (IH Ht) as (r & ->). eauto.
Qed.

Lemma utf8_char_scalar c b : utf8_char c = Some b -> scalar_value c = true.
Proof.
  unfold scalar_value, utf8_char.
  destruct (N.ltb_spec c 128);
    [intros _; destruct (N.ltb_spec c 1114112); destruct (N.leb_spec 55296 c);
     cbn; try reflexivity; lia|].
  destruct (N.ltb_spec c 2048);
    [intros _; destruct (N.ltb_spec c 1114112); destruct (N.leb_spec 55296 c);
     cbn; try reflexivity; lia|].
  destruct (N.ltb_spec c 65536).
  - destruct ((55296 <=? c) && (c <=? 57343)); [discriminate|]. intros _.
    destruct (N.ltb_spec c 1114112); [reflexivity|lia].
  - destruct (N.ltb_spec c 1114112); [|discriminate]. intros _.
    destruct (N.leb_spec 55296 c); destruct (N.leb_spec c 57343);
      cbn; try reflexivity; lia.
Qed.

Lemma utf8_encode_encodable text b : utf8_encode text = Some b -> encodable text = true.
Proof.
  revert b. induction text as [|c text IH]; intros b H; [reflexivity|].
  cbn [utf8_encode] in H. unfold encodable. cbn [forallb].
  destruct (utf8_char c) as [x|] eqn:Ec; [|discriminate].
  destruct (utf8_encode text) as [r|] eqn:Er; [|discriminate].
  rewrite (utf8_char_scalar c x Ec). exact (IH r eq_refl).
Qed.

Lemma encodable_app a b : encodable (a ++ b) = encodable a && encodable b.
Proof. unfold encodable. apply forallb_app. Qed.

(** A dump whose text can be encoded is written in full. *)
Lemma write_chunks_complete (cs : list pystr) :
  encodable (concat cs) = true -> write_chunks cs = (concat cs, None).
Proof.
  induction cs as [|c cs IH]; [reflexivity|].
  cbn [concat write_chunks]. rewrite encodable_app. intro H.
  apply andb_prop in H. destruct H as [Hc Hr].
  destruct (utf8_encode_defined c Hc) as (b & ->). now rewrite (IH Hr).
Qed.

(** A write that ends without an exception wrote every piece. *)
Lemma write_chunks_whole (cs : list pystr) text :
  write_chunks cs = (text, None) -> text = concat cs /\ encodable text = true.
Proof.
  revert text. induction cs as [|c cs IH]; intros text H.
  - inversion H. now split.
  - cbn [write_chunks] in H. destruct (utf8_encode c) as [b|] eqn:Ec; [|discriminate].
    destruct (write_chunks cs) as [t f] eqn:Er. inversion H. subst f.
    destruct (IH t eq_refl) as [-> Ht]. split; [reflexivity|].
    cbn [concat].
    rewrite encodable_app, Ht, (utf8_encode_encodable c b Ec). reflexivity.
Qed.

(** A write that raises leaves the pieces before the one that could not be
    encoded. *)
Lemma write_chunks_cut (cs : list pystr) text chunk :
  write_chunks cs = (text, Some chunk) ->
  exists before after,
    cs = before ++ chunk :: after /\ text = concat before /\
    encodable chunk = false /\ encodable (concat cs) = false.
Proof.
  revert text. induction cs as [|c cs IH]; intros text H; [discriminate|].
  cbn [write_chunks] in H. destruct (utf8_encode c) as [b|] eqn:Ec.
  - destruct (write_chunks cs) as [t f] eqn:Er. inversion H. subst f.
    destruct (IH t eq_refl) as (before & after & Hcs & Ht & Hc & Hall).
    exists (c :: before), after. rewrite Hcs at 1. rewrite Ht.
    repeat split; try assumption.
    cbn [concat]. rewrite encodable_app, Hall. apply andb_false_r.
  - inversion H. subst text chunk. exists [], cs.
    assert (Hc : encodable c = false).
    { destruct (encodable c) eqn:E; [|reflexivity].
      destruct (utf8_encode_defined c E) as (b & Hb). congruence. }
    repeat split; try assumption.
    cbn [concat]. rewrite encodable_app, Hc. reflexivity.
Qed.

(** What reached the file could be encoded. *)
Lemma write_chunks_before (cs : list pystr) text failed :
  write_chunks cs = (text, failed) -> encodable text = true.
Proof.
  revert text. induction cs as [|c cs IH]; intros text H.
  - inversion H. reflexivity.
  - cbn [write_chunks] in H. destruct (utf8_encode c) as [b|] eqn:Ec.
    + destruct (write_chunks cs) as [t f] eqn:Er. inversion H. subst.
      rewrite encodable_app, (utf8_encode_encodable c b Ec), (IH t eq_refl).
      reflexivity.
    + inversion H. reflexivity.
Qed.

(** The pieces of the reference printer, joined, are its text. *)
Lemma join_items_cons lvl (x : pystr) (rest : list pystr) :
  join_items lvl (x :: rest)
    = x ++ concat (List.map (fun y => 44 :: newline_indent lvl ++ y) rest).
Proof.
  revert x. induction rest as [|y rest IH]; intro x.
  - cbn. now rewrite app_nil_r.
  - change (join_items lvl (x :: y :: rest))
      with (x ++ 44 :: newline_indent lvl ++ join_items lvl (y :: rest)).
    rewrite IH. cbn [List.map concat app]. now rewrite <- ?app_assoc.
Qed.

Lemma concat_item lvl buf y :
  (forall lvl, concat (chunks lvl y) = print_value lvl y) ->
  concat (match scalar_text y with
          | Some t => [buf ++ t]
          | None => buf :: chunks (S lvl) y
          end) = buf ++ print_value (S lvl) y.
Proof.
  intro Hy.
  destruct y as [| [|] | z | s | l' | d']; cbn [scalar_text concat];
    rewrite ?app_nil_r; try reflexivity; now rewrite Hy.
Qed.

Lemma concat_chunks (v : json) : forall lvl, concat (chunks lvl v) = print_value lvl v.
Proof.
  induction v as [| b | z | s | l IH | d IH] using json_induction; intro lvl.
  - reflexivity.
  - destruct b; reflexivity.
  - cbn. now rewrite app_nil_r.
  - cbn [chunks concat print_value]. now rewrite app_nil_r.
  - destruct l as [|x xs]; [reflexivity|].
    cbn [chunks print_value]. cbn [List.map]. rewrite join_items_cons.
    inversion IH as [|? ? Hx Hxs]; subst.
    match goal with
    | |- context [flat_map ?f xs] =>
        assert (Hrest :
          concat (flat_map f xs)
          = concat (List.map (fun y => 44 :: newline_indent (S lvl) ++ y)
                             (List.map (print_value (S lvl)) xs)))
    end.
    { clear - Hxs. induction Hxs as [|y ys Hy _ IHys]; [reflexivity|].
      cbn [flat_map List.map concat]. rewrite concat_app, (concat_item _ _ y Hy), IHys.
      reflexivity. }
    rewrite !concat_app, (concat_item _ _ x Hx), Hrest. cbn [concat].
    rewrite app_nil_r. cbn [app]. now rewrite <- ?app_assoc.
  - destruct d as [|kv kvs]; [reflexivity|].
    cbn [chunks print_value]. cbn [List.map]. rewrite join_items_cons.
    inversion IH as [|? ? Hx Hxs]; subst.
    match goal with
    | |- context [flat_map ?f kvs] =>
        assert (Hrest :
          concat (flat_map f kvs)
          = concat (List.map (fun y => 44 :: newline_indent (S lvl) ++ y)
                             (List.map (fun kv : pystr * json =>
                                          print_string (fst kv)
                                            ++ 58 :: 32 :: print_value (S lvl) (snd kv))
                                       kvs)))
    end.
    { clear - Hxs. induction Hxs as [|y ys Hy _ IHys]; [reflexivity|].
      cbn [flat_map List.map concat app]. rewrite concat_app, Hy, IHys.
      cbn [app]. now rewrite <- ?app_assoc. }
    cbn [concat app]. rewrite !concat_app, Hx, Hrest. cbn [concat].
    rewrite app_nil_r. cbn [app]. now rewrite <- ?app_assoc.
Qed.

Lemma ref_chunks_dumps (v : json) : concat (ref_chunks v) = ref_dumps v.
Proof. apply concat_chunks. Qed.

(** *** A document cut short does not parse

    The reference parser never looks back: what it has read of a text it
    reads the same way when more text follows.  A strict prefix of a printed
    dict therefore cannot parse, since the whole text parses as that dict only
    at its last character. *)

Lemma skip_ws_app s c r t : skip_ws s = c :: r -> skip_ws (s ++ t) = c :: r ++ t.
Proof.
  induction s as [|a s IH]; [discriminate|].
  cbn [skip_ws app]. destruct (is_ws a); [exact IH|].
  intro H. inversion H. reflexivity.
Qed.

Lemma expect_app word s r t : expect word s = Some r -> expect word (s ++ t) = Some (r ++ t).
Proof.
  revert s. induction word as [|a word IH]; intros [|b s] H; cbn [expect app] in *;
    try discriminate.
  - now inversion H.
  - now inversion H.
  - destruct (a =? b); [now apply IH|discriminate].
Qed.

Lemma keyword_app word v0 s v r t :
  keyword word v0 s = Some (v, r) -> keyword word v0 (s ++ t) = Some (v, r ++ t).
Proof.
  unfold keyword. destruct (expect word s) as [rest|] eqn:E; [|discriminate].
  intro H. inversion H. subst. now rewrite (expect_app _ _ _ t E).
Qed.

Lemma cons_char_some c p str r :
  cons_char c p = Some (str, r) -> exists str', p = Some (str', r) /\ str = c :: str'.
Proof.
  destruct p as [[s0 r0]|]; [|discriminate]. cbn. intro H. inversion H. eauto.
Qed.

Lemma parse_string_body_eq c s1 :
  parse_string_body (c :: s1) =
    if c =? 34 then Some ([], s1)
    else if c =? 92 then
      match s1 with
      | [] => None
      | x :: s2 =>
          if x =? 117 then
            match s2 with
            | a :: b :: c' :: d :: s3 =>
                match unhex4 a b c' d with
                | Some cp => cons_char cp (parse_string_body s3)
                | None => None
                end
            | _ => None
            end
          else
            match unescape x with
            | Some cp => cons_char cp (parse_string_body s2)
            | None => None
            end
      end
    else if c <? 32 then None
    else cons_char c (parse_string_body s1).
Proof. reflexivity. Qed.

Lemma parse_string_body_app_bounded (n : nat) :
  forall s str r t,
    (length s <= n)%nat ->
    parse_string_body s = Some (str, r) ->
    parse_string_body (s ++ t) = Some (str, r ++ t).
Proof.
  induction n as [|n IH]; intros s str r t Hn H.
  - destruct s; [discriminate|cbn in Hn; lia].
  - destruct s as [|c s1]; [discriminate|].
    cbn [app]. rewrite parse_string_body_eq in *.
    destruct (c =? 34); [inversion H; reflexivity|].
    destruct (c =? 92).
    + destruct s1 as [|x s2]; [discriminate|]. cbn [app].
      destruct (x =? 117).
      * destruct s2 as [|a [|b [|c' [|d s3]]]]; try discriminate. cbn [app].
        destruct (unhex4 a b c' d) as [cp|]; [|discriminate].
        apply cons_char_some in H. destruct H as (str' & Hs & ->).
        rewrite (IH s3 str' r t); [reflexivity| cbn [length] in Hn; lia | exact Hs].
      * destruct (unescape x) as [cp|]; [|discriminate].
        apply cons_char_some in H. destruct H as (str' & Hs & ->).
        rewrite (IH s2 str' r t); [reflexivity| cbn [length] in Hn; lia | exact Hs].
    + destruct (c <? 32); [discriminate|].
      apply cons_char_some in H. destruct H as (str' & Hs & ->).
      rewrite (IH s1 str' r t); [reflexivity| cbn [length] in Hn; lia | exact Hs].
Qed.

Lemma parse_string_body_app s str r t :
  parse_string_body s = Some (str, r) ->
  parse_string_body (s ++ t) = Some (str, r ++ t).
Proof. apply (parse_string_body_app_bounded (length s)). lia. Qed.

Lemma parse_digits_app s u r t :
  parse_digits s = (u, r) -> r <> [] -> parse_digits (s ++ t) = (u, r ++ t).
Proof.
  revert u. induction s as [|c s IH]; intros u H Hr.
  - cbn in H. inversion H. congruence.
  - cbn [parse_digits app] in *. destruct (is_digit c).
    + destruct (parse_digits s) as [u' r'] eqn:E. inversion H. subst.
      now rewrite (IH u' eq_refl Hr).
    + inversion H. reflexivity.
Qed.

Lemma parse_int_app s v r t :
  parse_int s = Some (v, r) -> r <> [] -> parse_int (s ++ t) = Some (v, r ++ t).
Proof.
  unfold parse_int. destruct s as [|c s']; [discriminate|]. cbn [app].
  destruct (c =? 45).
  - destruct (parse_digits s') as [u r'] eqn:E. intros H Hr.
    assert (r' = r) by (destruct u; inversion H; reflexivity). subst r'.
    rewrite (parse_digits_app _ _ _ t E Hr). destruct u; inversion H; reflexivity.
  - destruct (parse_digits (c :: s')) as [u r'] eqn:E. intros H Hr.
    assert (r' = r) by (destruct u; inversion H; reflexivity). subst r'.
    change (c :: s' ++ t) with ((c :: s') ++ t).
    rewrite (parse_digits_app _ _ _ t E Hr). destruct u; inversion H; reflexivity.
Qed.

(** What was parsed stays parsed when text is added at the end and fuel is
    added; for a number this needs a character after its digits. *)
Lemma parse_app (fuel : nat) :
  (forall s v r t fuel',
      parse_value fuel s = Some (v, r) ->
      (r <> [] \/ forall z, v <> JInt z) -> (fuel <= fuel')%nat ->
      parse_value fuel' (s ++ t) = Some (v, r ++ t)) /\
  (forall s vs r t fuel',
      parse_items fuel s = Some (vs, r) -> (fuel <= fuel')%nat ->
      parse_items fuel' (s ++ t) = Some (vs, r ++ t)) /\
  (forall s kvs r t fuel',
      parse_members fuel s = Some (kvs, r) -> (fuel <= fuel')%nat ->
      parse_members fuel' (s ++ t) = Some (kvs, r ++ t)).
Proof.
  induction fuel as [|fuel (IHv & IHi & IHm)].
  { repeat split; intros; discriminate. }
  split; [|split].
  - intros s v r t [|fuel'] H Hint Hle; [lia|].
    rewrite parse_value_eq in *.
    destruct (skip_ws s) as [|c s'] eqn:Es; [discriminate|].
    rewrite (skip_ws_app _ _ _ t Es).
    destruct (c =? 110); [now apply keyword_app|].
    destruct (c =? 116); [now apply keyword_app|].
    destruct (c =? 102); [now apply keyword_app|].
    destruct (c =? 34).
    { destruct (parse_string_body s') as [[str rest]|] eqn:Ep; [|discriminate].
      inversion H. subst. now rewrite (parse_string_body_app _ _ _ t Ep). }
    destruct (c =? 91).
    { destruct (skip_ws s') as [|c1 s1] eqn:E1; [discriminate|].
      rewrite (skip_ws_app _ _ _ t E1).
      destruct (c1 =? 93); [inversion H; reflexivity|].
      destruct (parse_items fuel s') as [[items rest]|] eqn:Ep; [|discriminate].
      inversion H. subst. rewrite (IHi _ _ _ t fuel' Ep); [reflexivity|lia]. }
    destruct (c =? 123).
    { destruct (skip_ws s') as [|c1 s1] eqn:E1; [discriminate|].
      rewrite (skip_ws_app _ _ _ t E1).
      destruct (c1 =? 125); [inversion H; reflexivity|].
      destruct (parse_members fuel s') as [[fields rest]|] eqn:Ep; [|discriminate].
      inversion H. subst. rewrite (IHm _ _ _ t fuel' Ep); [reflexivity|lia]. }
    change (c :: s' ++ t) with ((c :: s') ++ t).
    apply parse_int_app; [exact H|].
    destruct Hint as [Hr|Hv]; [exact Hr|].
    unfold parse_int in H.
    destruct (c =? 45).
    + destruct (parse_digits s') as [[] ?]; inversion H; subst; now destruct (Hv _ eq_refl).
    + destruct (parse_digits (c :: s')) as [[] ?]; inversion H; subst;
        now destruct (Hv _ eq_refl).
  - intros s vs r t [|fuel'] H Hle; [lia|].
    rewrite parse_items_eq in *.
    destruct (parse_value fuel s) as [[v rest]|] eqn:Ev; [|discriminate].
    destruct (skip_ws rest) as [|c rest'] eqn:Es; [discriminate|].
    assert (Hrest : rest <> []) by (intros ->; discriminate).
    rewrite (IHv _ _ _ t fuel' Ev (or_introl Hrest)) by lia.
    rewrite (skip_ws_app _ _ _ t Es).
    destruct (c =? 93); [inversion H; reflexivity|].
    destruct (c =? 44); [|discriminate].
    destruct (parse_items fuel rest') as [[vs' rest'']|] eqn:Ep; [|discriminate].
    inversion H. subst. rewrite (IHi _ _ _ t fuel' Ep); [reflexivity|lia].
  - intros s kvs r t [|fuel'] H Hle; [lia|].
    rewrite parse_members_eq in *.
    destruct (skip_ws s) as [|q s0] eqn:Es; [discriminate|].
    rewrite (skip_ws_app _ _ _ t Es).
    destruct (q =? 34); [|discriminate].
    destruct (parse_string_body s0) as [[k s1]|] eqn:Ek; [|discriminate].
    rewrite (parse_string_body_app _ _ _ t Ek).
    destruct (skip_ws s1) as [|colon s2] eqn:Ec; [discriminate|].
    rewrite (skip_ws_app _ _ _ t Ec).
    destruct (colon =? 58); [|discriminate].
    destruct (parse_value fuel s2) as [[v rest]|] eqn:Ev; [|discriminate].
    destruct (skip_ws rest) as [|c rest'] eqn:Er; [discriminate|].
    assert (Hrest : rest <> []) by (intros ->; discriminate).
    rewrite (IHv _ _ _ t fuel' Ev (or_introl Hrest)) by lia.
    rewrite (skip_ws_app _ _ _ t Er).
    destruct (c =? 125); [inversion H; reflexivity|].
    destruct (c =? 44); [|discriminate].
    destruct (parse_members fuel rest') as [[kvs' rest'']|] eqn:Ep; [|discriminate].
    inversion H. subst. rewrite (IHm _ _ _ t fuel' Ep); [reflexivity|lia].
Qed.

(** A text that opens with a brace parses as a dict or not at all. *)
Lemma parse_value_brace fuel s v r :
  parse_value fuel (123 :: s) = Some (v, r) -> exists d, v = JDict d.
Proof.
  destruct fuel as [|fuel]; [discriminate|].
  rewrite parse_value_eq. cbn [skip_ws is_ws N.eqb Pos.eqb orb]. cbv iota.
  destruct (skip_ws s) as [|c1 s1]; [discriminate|].
  destruct (c1 =? 125); [intro H; inversion H; eauto|].
  destruct (parse_members fuel s) as [[fields rest]|]; [|discriminate].
  intro H. inversion H. eauto.
Qed.

Lemma cut_dict_does_not_load (d : list (pystr * json)) (p t : pystr) :
  ref_dumps (JDict d) = p ++ t -> t <> [] -> ref_loads p = None.
Proof.
  intros Hd Ht. unfold ref_loads.
  destruct (parse_value (S (length p)) p) as [[v r]|] eqn:Ep; [|reflexivity].
  destruct (skip_ws r) as [|c r'] eqn:Er; [|reflexivity].
  exfalso.
  assert (Hv : forall z, v <> JInt z).
  { destruct p as [|c p']; [discriminate|].
    assert (c = 123).
    { unfold ref_dumps in Hd. destruct d as [|kv d']; cbn in Hd; now inversion Hd. }
    subst c. destruct (parse_value_brace _ _ _ _ Ep) as (d0 & ->). discriminate. }
  pose proof (proj1 (parse_app (S (length p))) p v r t (S (length (p ++ t))) Ep
                (or_intror Hv)) as Hext.
  rewrite length_app in Hext. specialize (Hext ltac:(lia)).
  pose proof (print_value_reads_back (JDict d) 0%nat (S (length p + length t)) [] I) as Hall.
  rewrite app_nil_r in Hall. fold (ref_dumps (JDict d)) in Hall.
  rewrite Hd, length_app in Hall. specialize (Hall ltac:(lia)).
  rewrite Hext in Hall. inversion Hall as [[Hv' Hr]].
  apply app_eq_nil in Hr. now destruct Hr.
Qed.

(** The reference codec keeps the contract of [json.load] on the files a
    save leaves, whole or cut off. *)
Lemma ref_load_reads_saved key raises clk message :
  load_reads_saved (Env key raises clk ref_chunks ref_loads message).
Proof.
  intros t h text failed v Hwr Hl. cbn [json_chunks json_loads] in *.
  destruct failed as [chunk|].
  - exfalso.
    destruct (write_chunks_cut _ _ _ Hwr) as (before & after & Hcs & -> & Hc & _).
    assert (Hcut : ref_loads (concat before) = None).
    { apply (cut_dict_does_not_load
               [(lit "saved_at", JStr t); (lit "items", JList h)]
               (concat before) (chunk ++ concat after)).
      - fold (saved_document t h). rewrite <- ref_chunks_dumps, Hcs, concat_app.
        reflexivity.
      - destruct chunk; [discriminate|discriminate]. }
    congruence.
  - split; [reflexivity|].
    destruct (write_chunks_whole _ _ Hwr) as [-> _].
    rewrite ref_chunks_dumps, ref_loads_dumps in Hl. now inversion Hl.
Qed.

(** A save that is let through to the file, in the two ways it can end. *)
Lemma save_written e w :
  persist_opt_in (session w) = true -> write_denied (fs w) = None ->
  forall text failed,
    write_chunks (json_chunks e (saved_document (iso (clock e (clock_reads w)))
                                                (history (session w)))) = (text, failed) ->
    save_history_to_disk e w
      = (World (session w) (Fs (Readable text) None) (S (clock_reads w)),
         match failed with
         | None => []
         | Some chunk =>
             [StWarning (lit "Could not save history to disk: " ++ encode_error e chunk)]
         end).
Proof.
  intros Hp Hw text failed H. unfold save_history_to_disk. rewrite Hp, Hw.
  cbn [negb now_iso session fs clock_reads write_denied].
  unfold saved_document in H. rewrite H. now rewrite Hw.
Qed.

(** C5 (as amended).  With persistence opted in, a write the disk permits and
    a history whose document can be encoded as UTF-8 (no lone surrogate in its
    text), the save shows nothing and leaves the whole document in the file;
    when [json.load] reads that document back, a load of the file gives the
    history that was saved, whatever the history holds otherwise (no entry,
    one, many, accents and emoji) and whatever the session that loads held
    before. *)
Theorem save_then_load_restores_history (e : env) (w w' : world) :
  let doc := saved_document (iso (clock e (clock_reads w))) (history (session w)) in
  persist_opt_in (session w) = true ->
  write_denied (fs w) = None ->
  encodable (json_dumps e doc) = true ->
  json_loads e (json_dumps e doc) = Some doc ->
  history_json (fs w') = history_json (fs (fst (save_history_to_disk e w))) ->
  snd (save_history_to_disk e w) = [] /\
  history_json (fs (fst (save_history_to_disk e w))) = Readable (json_dumps e doc) /\
  history (session (load_history_from_disk e w')) = history (session w).
Proof.
  intros doc Hp Hw Henc Hload Hf.
  rewrite (save_written e w Hp Hw _ _ (write_chunks_complete _ Henc)) in *.
  cbn [fst snd fs history_json] in *.
  split; [reflexivity|]. split; [reflexivity|].
  erewrite load_after_write; [| exact Hf | exact Hload | reflexivity].
  reflexivity.
Qed.

Lemma save_then_load_restores_history_witness :
  snd (save_history_to_disk configured_env two_entry_world) = [] /\
  history_json (fs (fst (save_history_to_disk configured_env two_entry_world)))
    = Readable (json_dumps configured_env
                  (saved_document (lit "2023-11-14 22:13:20") [sample_entry; emoji_entry])) /\
  history (session (load_history_from_disk configured_env
     (initial_world (fs (fst (save_history_to_disk configured_env two_entry_world))))))
  = [sample_entry; emoji_entry].
Proof.
  apply (save_then_load_restores_history configured_env two_entry_world
           (initial_world (fs (fst (save_history_to_disk configured_env two_entry_world))))).
  - reflexivity.
  - reflexivity.
  - vm_compute. reflexivity.
  - unfold json_dumps. cbn [json_chunks json_loads configured_env].
    rewrite ref_chunks_dumps. apply ref_loads_dumps.
  - reflexivity.
Defined.

(** C5 (as stated) fails for a history that holds a lone surrogate.  The disk
    is writable and persistence is on; [json.dump] writes the document up to
    the answer, the encoding of the answer raises, the warning is shown and
    the file is left cut off after the key of the answer.  The file does not
    parse, so a load of it gives no history back. *)
Lemma lone_surrogate_cuts_the_file :
  let out := save_history_to_disk configured_env surrogate_world in
  let cut := lit "{" ++ newline_indent 1
      ++ print_string (lit "saved_at") ++ lit ": "
      ++ print_string (lit "2023-11-14 22:13:20") ++ lit "," ++ newline_indent 1
      ++ print_string (lit "items") ++ lit ": [" ++ newline_indent 2
      ++ lit "{" ++ newline_indent 3
      ++ print_string (lit "id") ++ lit ": "
      ++ print_string (lit "1700000001.5") ++ lit "," ++ newline_indent 3
      ++ print_string (lit "timestamp") ++ lit ": "
      ++ print_string (lit "2023-11-14 22:13:21") ++ lit "," ++ newline_indent 3
      ++ print_string (lit "question") ++ lit ": "
      ++ print_string (lit "Summarize") ++ lit "," ++ newline_indent 3
      ++ print_string (lit "answer") ++ lit ": " in
  persist_opt_in (session surrogate_world) = true /\
  write_denied (fs surrogate_world) = None /\
  history (session surrogate_world) = [surrogate_entry] /\
  snd out = [StWarning (lit "Could not save history to disk: 'utf-8' codec can't encode character '\ud83d' in position 3: surrogates not allowed")] /\
  history_json (fs (fst out)) = Readable cut /\
  json_loads configured_env cut = None /\
  history (session (load_history_from_disk configured_env (initial_world (fs (fst out)))))
    = [].
Proof. vm_compute. repeat split. Qed.

(** C6 (as amended).  When [history.json] is missing, or exists but cannot be
    read or is not JSON (or not a JSON object), or parses to an object whose
    [items] is not a list, the load raises nothing and leaves the world as it
    was: the history in memory stays what it was before the call, which is the
    empty list on the first run of a session. *)
Theorem load_without_items_keeps_world (e : env) (w : world) :
  (history_json (fs w) = Missing \/
   history_json (fs w) = Unreadable \/
   exists text, history_json (fs w) = Readable text /\
     (json_loads e text = None \/
      (exists v, json_loads e text = Some v /\ forall d, v <> JDict d) \/
      (exists d, json_loads e text = Some (JDict d) /\
                 forall items, get_default (lit "items") (JList []) d <> JList items))) ->
  load_history_from_disk e w = w.
Proof.
  unfold load_history_from_disk.
  intros [Hf|[Hf|(text & Hf & H)]]; rewrite Hf; try reflexivity.
  destruct H as [Hl|[(v & Hl & Hv)|(d & Hl & Hi)]]; rewrite Hl; try reflexivity.
  - destruct v; try reflexivity. now destruct (Hv fields).
  - destruct (get_default (lit "items") (JList []) d) eqn:E; try reflexivity.
    now destruct (Hi items).
Qed.

Lemma load_without_items_keeps_world_witness :
  load_history_from_disk configured_env
      (World (session one_entry_world) numeric_items_fs 2)
    = World (session one_entry_world) numeric_items_fs 2
  /\ load_history_from_disk configured_env (initial_world empty_fs)
    = initial_world empty_fs.
Proof.
  split.
  - apply (load_without_items_keeps_world configured_env).
    right. right. exists (ref_dumps (JDict [(lit "items", JInt 5)])).
    split; [reflexivity|]. right. right.
    exists [(lit "items", JInt 5)]. split.
    + apply ref_loads_dumps.
    + intros items. vm_compute. discriminate.
  - apply (load_without_items_keeps_world configured_env). left. reflexivity.
Defined.

(** C6 (as stated) fails when the session already holds entries.  A user
    uploads an image, asks a question and then ticks the persistence checkbox:
    on the next execution of the script the load finds no file, and the history
    after it is the entry in memory, not the empty sequence.  The same holds
    with a file that is not JSON. *)
Lemma load_failure_keeps_entries :
  let w := run configured_env
             [Rerun; Do (Upload (Decoded sample_image));
              Rerun; Do (Send (lit "Summarize") beach_stub);
              Rerun; Do (SetPersist true)]
             (initial_world empty_fs) in
  persist_opt_in (session w) = true /\
  history_json (fs w) = Missing /\
  history (session (load_history_from_disk configured_env w))
    = [new_entry (lit "1700000000.5") (lit "2023-11-14 22:13:20")
                 (lit "Summarize") (lit "A calm beach scene.")] /\
  ref_loads (lit "{oops") = None /\
  history (session (load_history_from_disk configured_env
                      (World (session w) garbled_fs (clock_reads w))))
    = [new_entry (lit "1700000000.5") (lit "2023-11-14 22:13:20")
                 (lit "Summarize") (lit "A calm beach scene.")].
Proof. vm_compute. repeat split. Qed.

(** ** Rating, pinning and clearing *)

Lemma last_entry_app h x : last_entry (h ++ [x]) = Some x.
Proof.
  unfold last_entry. rewrite length_app. cbn [length].
  replace (length h + 1 - 1)%nat with (length h) by lia.
  rewrite nth_error_app2 by lia. now rewrite Nat.sub_diag.
Qed.

Lemma set_last_app x y h : set_last y (h ++ [x]) = h ++ [y].
Proof. unfold set_last. now rewrite removelast_last. Qed.

Lemma last_entry_some h x :
  last_entry h = Some x -> exists h0, h = h0 ++ [x].
Proof.
  intro H. destruct h as [|a h]; [discriminate|].
  destruct (@exists_last _ (a :: h)) as (h0 & y & E); [discriminate|].
  rewrite E in *. rewrite last_entry_app in H. inversion H. eauto.
Qed.

Lemma fst_let {A B C : Type} (p : A * B) (f : B -> C) :
  fst (let (a, b) := p in (a, f b)) = fst p.
Proof. now destruct p. Qed.

Lemma snd_let {A B C : Type} (p : A * B) (f : B -> C) :
  snd (let (a, b) := p in (a, f b)) = f (snd p).
Proof. now destruct p. Qed.

(** C7 (as amended).  The handler of "Save Rating" has no range check and no
    rejection path: whatever value it is handed (the slider offers 1 to 5) is
    stored in place as the rating of the last entry, the entries before it are
    kept, and the page shows the success message; no error is shown and no
    exception leaves the handler. *)
Theorem save_rating_stores_value (e : env) (rr : Z) (w : world)
    (h : list json) (d : list (pystr * json)) :
  history (session w) = h ++ [JDict d] ->
  let out := save_rating_clicked e rr w in
  history (session (fst out)) = h ++ [JDict (assoc_set (lit "rating") (JInt rr) d)] /\
  entry_rating (JDict (assoc_set (lit "rating") (JInt rr) d)) = Some (JInt rr) /\
  In (StSuccess (lit "Thanks for rating!")) (snd out) /\
  (forall m, ~ In (StError m) (snd out)) /\
  (forall x, ~ In (Uncaught x) (snd out)).
Proof.
  intros Hh out. subst out. unfold save_rating_clicked.
  rewrite Hh, last_entry_app. cbn [setitem]. rewrite set_last_app.
  rewrite fst_let, snd_let, save_session. cbn [with_session with_history session history].
  split; [reflexivity|]. split; [apply assoc_get_set_same|].
  match goal with
  | |- context [save_history_to_disk e ?w1] =>
      pose proof (save_events_no_uncaught e w1) as Hu;
      assert (He : forall m, ~ In (StError m) (snd (save_history_to_disk e w1)))
  end.
  { intro m. apply save_events_no_error. }
  repeat split.
  - apply in_or_app. right. now left.
  - intros m Hin. apply in_app_or in Hin. destruct Hin as [Hin|Hin].
    + exact (He m Hin).
    + simpl in Hin. intuition congruence.
  - intros x Hin. apply in_app_or in Hin. destruct Hin as [Hin|Hin].
    + exact (Hu x Hin).
    + simpl in Hin. intuition congruence.
Qed.

Lemma save_rating_stores_value_witness :
  slider_value 4 /\
  List.map entry_rating
    (history (session (fst (save_rating_clicked configured_env 4 two_entry_world))))
  = [Some (JInt 0); Some (JInt 4)].
Proof.
  split; [unfold slider_value; lia|].
  destruct (save_rating_stores_value configured_env 4 two_entry_world [sample_entry]
              [(lit "id", JStr (lit "1700000003.25"));
               (lit "timestamp", JStr (lit "2023-11-14 22:13:23"));
               (lit "question", JStr (lit "caf" ++ [233; 32; 128512]));
               (lit "answer", JStr (lit "Sunny " ++ [9728; 65039; 10; 34] ++ lit "beach" ++ [34]));
               (lit "rating", JInt 0);
               (lit "pinned", JBool false)] eq_refl) as (Hh & _).
  rewrite Hh. reflexivity.
Defined.

(** C7 (as stated) fails: handed 9, a value outside 1..5, the handler stores
    it as the rating of the last entry and shows the success message. *)
Lemma save_rating_out_of_range_is_stored :
  let out := save_rating_clicked configured_env 9 one_entry_world in
  ~ slider_value 9 /\
  List.map entry_rating (history (session one_entry_world)) = [Some (JInt 0)] /\
  List.map entry_rating (history (session (fst out))) = [Some (JInt 9)] /\
  snd out = [StSuccess (lit "Thanks for rating!")].
Proof.
  split; [unfold slider_value; lia|]. vm_compute. repeat split.
Qed.

(** C8.  "Clear Session History" empties the history and leaves the
    achievements (both [questions_today] and [first_upload_done]) and the
    current image as they were. *)
Theorem clear_history_keeps_image_and_achievements (e : env) (w : world) :
  let w' := fst (clear_history_clicked e w) in
  history (session w') = [] /\
  achievements (session w') = achievements (session w) /\
  current_image (session w') = current_image (session w).
Proof.
  unfold clear_history_clicked. rewrite fst_let, save_session.
  cbn. repeat split.
Qed.

Lemma nth_error_removelast {A : Type} (h : list A) i :
  (S i < length h)%nat -> nth_error (removelast h) i = nth_error h i.
Proof.
  revert i. induction h as [|a h IH]; intros i Hi; [simpl in Hi; lia|].
  destruct h as [|b h]; [simpl in Hi; lia|].
  destruct i as [|i]; [reflexivity|].
  change (removelast (a :: b :: h)) with (a :: removelast (b :: h)).
  cbn [nth_error]. apply IH. simpl in *. lia.
Qed.

Lemma length_removelast {A : Type} (h : list A) :
  length (removelast h) = (length h - 1)%nat.
Proof.
  induction h as [|a h IH]; [reflexivity|].
  destruct h as [|b h]; [reflexivity|].
  change (removelast (a :: b :: h)) with (a :: removelast (b :: h)).
  cbn [length] in *. lia.
Qed.

Lemma nth_error_set_last x h i :
  (S i < length h)%nat -> nth_error (set_last x h) i = nth_error h i.
Proof.
  intro Hi. unfold set_last.
  rewrite nth_error_app1 by (rewrite length_removelast; lia).
  now apply nth_error_removelast.
Qed.

Lemma nth_error_list_update_other {A : Type} (h : list A) i j x :
  i <> j -> nth_error (list_update j x h) i = nth_error h i.
Proof.
  revert i j. induction h as [|a h IH]; intros i j Hij; [now destruct j|].
  destruct j as [|j], i as [|i]; try reflexivity; try congruence.
  cbn [list_update nth_error]. apply IH. congruence.
Qed.

Lemma nth_error_list_update_same {A : Type} (h : list A) i x y :
  nth_error h i = Some y -> nth_error (list_update i x h) i = Some x.
Proof.
  revert i. induction h as [|a h IH]; intros [|i] H; try discriminate; try reflexivity.
  cbn [list_update nth_error] in *. now apply IH.
Qed.

Lemma rating_key_not_pinned : lit "rating" <> lit "pinned".
Proof. vm_compute. discriminate. Qed.

Lemma id_key_not_pinned : lit "id" <> lit "pinned".
Proof. vm_compute. discriminate. Qed.

Lemma id_key_not_rating : lit "id" <> lit "rating".
Proof. vm_compute. discriminate. Qed.

(** C10.  Whatever operation the user triggers (send, rate, pin from the
    sidebar or pin last, clear, upload, export, the persistence checkbox), an
    entry that is not the last one of the history and is still in the history
    afterwards has the rating it had before; "Save Rating" leaves every such
    entry as it was, so the only entry it writes is the last one. *)
Theorem earlier_ratings_unchanged (e : env) (op : operation) (w : world)
    (i : nat) (x y : json) :
  (S i < length (history (session w)))%nat ->
  nth_error (history (session w)) i = Some x ->
  nth_error (history (session (fst (perform e op w)))) i = Some y ->
  entry_rating y = entry_rating x /\
  (forall rr, op = Rate rr -> y = x).
Proof.
  intros Hi Hx Hy.
  assert (Hsame : nth_error (history (session (fst (perform e op w)))) i
                    = nth_error (history (session w)) i ->
                  entry_rating y = entry_rating x /\ (forall rr, op = Rate rr -> y = x)).
  { intro H. rewrite H, Hx in Hy. inversion Hy. auto. }
  destruct op as [b| | |j|r|prompt reply|rr|]; cbn [perform] in *.
  - apply Hsame. reflexivity.
  - unfold clear_history_clicked in Hy. rewrite fst_let, save_session in Hy.
    cbn in Hy. destruct i; discriminate.
  - apply Hsame. now rewrite export_clicked_world.
  - unfold sidebar_pin_clicked in *.
    destruct (negb _); [now apply Hsame|].
    destruct (nth_error (history (session w)) j) as [[| | | | |d]|] eqn:Ej;
      try (now apply Hsame).
    rewrite save_session in Hy. cbn [with_session with_history session history] in Hy.
    destruct (Nat.eq_dec i j) as [->|Hij].
    + rewrite (nth_error_list_update_same _ _ _ _ Ej) in Hy.
      rewrite Ej in Hx. inversion Hx. inversion Hy. subst. split; [|discriminate].
      unfold entry_rating, field.
      apply assoc_get_set_other, rating_key_not_pinned.
    + rewrite nth_error_list_update_other in Hy by assumption.
      rewrite Hx in Hy. inversion Hy. split; [reflexivity|discriminate].
  - apply Hsame. destruct r; cbn; try reflexivity.
    destruct (negb _); reflexivity.
  - unfold send_clicked in *.
    destruct (is_empty (API_KEY e)); [now apply Hsame|].
    destruct (current_image (session w)); [|now apply Hsame].
    destruct (is_empty (strip prompt)); [now apply Hsame|].
    apply Hsame. cbn [now_stamp now_iso]. rewrite fst_let, save_session.
    cbn [with_session with_achievements with_history session history].
    apply nth_error_app1. lia.
  - unfold save_rating_clicked in *.
    destruct (last_entry (history (session w))) as [last|]; [|now apply Hsame].
    destruct (setitem last (lit "rating") (JInt rr)) as [last'|]; [|now apply Hsame].
    apply Hsame. rewrite fst_let, save_session.
    cbn [with_session with_history session history].
    now apply nth_error_set_last.
  - unfold pin_last_clicked in *.
    destruct (last_entry (history (session w))) as [[| | | | |d]|];
      try (now apply Hsame).
    apply Hsame. rewrite fst_let, save_session.
    cbn [with_session with_history session history].
    now apply nth_error_set_last.
Qed.

Lemma earlier_ratings_unchanged_witness :
  nth_error (history (session two_entry_world)) 0 = Some sample_entry /\
  nth_error (history (session (fst (perform configured_env (Rate 5) two_entry_world)))) 0
    = Some sample_entry /\
  entry_rating sample_entry = entry_rating sample_entry /\
  (forall rr, Rate 5 = Rate rr -> sample_entry = sample_entry).
Proof.
  split; [reflexivity|]. split; [reflexivity|].
  apply (earlier_ratings_unchanged configured_env (Rate 5) two_entry_world
           0 sample_entry sample_entry (le_n 2) eq_refl eq_refl).
Defined.

(** ** Ids of the entries *)

Lemma spent_mono e n m id : (n <= m)%nat -> spent e n id -> spent e m id.
Proof.
  intros Hnm (s & Hs & Hk). exists s. split; [exact Hs|].
  intros k Hle. apply Hk. lia.
Qed.

Lemma sound_history_mono e n m h :
  (n <= m)%nat -> sound_history e n h -> sound_history e m h.
Proof.
  intros Hnm [Hm Hd]. split; [|assumption].
  eapply Forall_impl; [|exact Hm]. intros id. now apply spent_mono.
Qed.

Lemma sound_file_mono e n m f :
  (n <= m)%nat -> sound_file e n f -> sound_file e m f.
Proof.
  intros Hnm Hf. destruct f; simpl in *; auto.
  intros d items Hl Hi. eapply sound_history_mono; eauto.
Qed.

Lemma sound_history_ids e n h h' :
  ids h' = ids h -> sound_history e n h -> sound_history e n h'.
Proof. unfold sound_history. now intros ->. Qed.

Lemma ids_set_last h x y :
  last_entry h = Some x -> entry_id y = entry_id x -> ids (set_last y h) = ids h.
Proof.
  intros Hl Hid. destruct (last_entry_some h x Hl) as (h0 & ->).
  rewrite set_last_app. unfold ids. rewrite !map_app. cbn [List.map]. now rewrite Hid.
Qed.

Lemma ids_list_update h i x y :
  nth_error h i = Some x -> entry_id y = entry_id x -> ids (list_update i y h) = ids h.
Proof.
  intros Hn Hid. revert i Hn.
  induction h as [|a h IH]; intros [|i] Hn; try discriminate.
  - cbn in *. inversion Hn. subst. now rewrite Hid.
  - cbn [list_update ids List.map] in *. f_equal. now apply IH.
Qed.

Lemma entry_id_set k v d :
  lit "id" <> k ->
  entry_id (JDict (assoc_set k v d)) = entry_id (JDict d).
Proof. intro H. unfold entry_id, field. now apply assoc_get_set_other. Qed.

(** A save keeps a sound world sound, however it ends: the file it leaves
    loads as the history in memory or not at all. *)
Lemma save_sound e w :
  load_reads_saved e -> sound_world e w -> sound_world e (fst (save_history_to_disk e w)).
Proof.
  intros Hload [Hh Hf].
  destruct (persist_opt_in (session w)) eqn:Hp.
  2: { unfold save_history_to_disk. rewrite Hp. now split. }
  destruct (write_denied (fs w)) as [msg|] eqn:Hd.
  { unfold save_history_to_disk. rewrite Hp, Hd. now split. }
  destruct (write_chunks
              (json_chunks e (saved_document (iso (clock e (clock_reads w)))
                                             (history (session w)))))
    as [text failed] eqn:Hwr.
  rewrite (save_written e w Hp Hd _ _ Hwr). cbn [fst].
  split; cbn [session fs clock_reads history_json].
  - eapply sound_history_mono; [|exact Hh]. lia.
  - cbn [sound_file]. intros d items Hl Hi.
    destruct (Hload _ _ _ _ _ Hwr Hl) as [_ Hv].
    unfold saved_document in Hv. inversion Hv. subst d.
    change (get_default (lit "items") (JList [])
              [(lit "saved_at", JStr (iso (clock e (clock_reads w))));
               (lit "items", JList (history (session w)))])
      with (JList (history (session w))) in Hi.
    inversion Hi. subst items.
    eapply sound_history_mono; [|exact Hh]. lia.
Qed.

Lemma save_sound_let e w (f : list ui_event -> list ui_event) :
  load_reads_saved e -> sound_world e w ->
  sound_world e (fst (let (w2, ev) := save_history_to_disk e w in (w2, f ev))).
Proof. intros. rewrite fst_let. now apply save_sound. Qed.

Lemma hydrate_sound e w : sound_world e w -> sound_world e (hydrate e w).
Proof.
  intros Hw. pose proof Hw as [Hh Hf]. unfold hydrate.
  destruct (persist_opt_in (session w)); [|exact Hw].
  unfold load_history_from_disk.
  destruct (history_json (fs w)) as [| |text] eqn:Ef; try exact Hw.
  destruct (json_loads e text) as [[| | | | |d]|] eqn:El; try exact Hw.
  destruct (get_default (lit "items") (JList []) d) as [| | | |items|] eqn:Ei;
    try exact Hw.
  split; cbn [with_session with_history session history fs clock_reads].
  - exact (Hf d items El Ei).
  - rewrite Ef. exact Hf.
Qed.

(** The entry a send appends has an id no entry of a sound history has, and
    the clock has moved past it. *)
Lemma sound_history_append e n h ts q a :
  clock_advances e -> sound_history e n h ->
  sound_history e (S (S n)) (h ++ [new_entry (stamp (clock e n)) ts q a]).
Proof.
  intros Hclock [Hm Hd]. unfold sound_history, ids in *. rewrite map_app.
  change (List.map entry_id [new_entry (stamp (clock e n)) ts q a])
    with [Some (JStr (stamp (clock e n)))].
  split.
  - apply Forall_app. split.
    + eapply Forall_impl; [|exact Hm]. intros x. apply spent_mono. lia.
    + constructor; [|constructor]. exists (stamp (clock e n)). split; [reflexivity|].
      intros k Hk E. apply Hclock in E. lia.
  - apply NoDup_app; [assumption | constructor; [intros []|constructor] |].
    intros x Hx [Hin|[]]. subst x.
    rewrite Forall_forall in Hm. destruct (Hm _ Hx) as (s & E & Hs).
    inversion E as [E']. exact (Hs n (Nat.le_refl n) E').
Qed.

Lemma perform_sound e op w :
  clock_advances e -> load_reads_saved e ->
  sound_world e w -> sound_world e (fst (perform e op w)).
Proof.
  intros Hclock Hinv Hw. pose proof Hw as [Hh Hf].
  destruct op as [b| | |j|r|prompt reply|rr|]; cbn [perform].
  - exact Hw.
  - unfold clear_history_clicked. apply save_sound_let; [assumption|].
    split; [|exact Hf]. split; constructor.
  - rewrite export_clicked_world.
    split; cbn [session fs clock_reads].
    + eapply sound_history_mono; [|exact Hh]. lia.
    + eapply sound_file_mono; [|exact Hf]. lia.
  - unfold sidebar_pin_clicked.
    destruct (negb _); [exact Hw|].
    destruct (nth_error (history (session w)) j) as [[| | | | |d]|] eqn:Ej;
      try exact Hw.
    apply save_sound; [assumption|]. split; [|exact Hf].
    cbn [with_session with_history session history clock_reads].
    eapply sound_history_ids; [|exact Hh].
    eapply ids_list_update; [exact Ej|]. apply entry_id_set, id_key_not_pinned.
  - destruct r as [img| |exn]; cbn [uploaded fst]; try exact Hw.
    destruct (negb _); exact Hw.
  - unfold send_clicked.
    destruct (is_empty (API_KEY e)); [exact Hw|].
    destruct (current_image (session w)); [|exact Hw].
    destruct (is_empty (strip prompt)); [exact Hw|].
    cbn [now_stamp now_iso]. apply save_sound_let; [assumption|].
    split; cbn [with_session with_achievements with_history session history
                clock_reads fs].
    + now apply sound_history_append.
    + eapply sound_file_mono; [|exact Hf]. lia.
  - unfold save_rating_clicked.
    destruct (last_entry (history (session w))) as [last|] eqn:El; [|exact Hw].
    destruct last as [| | | | |d]; cbn [setitem]; try exact Hw.
    apply save_sound_let; [assumption|]. split; [|exact Hf].
    cbn [with_session with_history session history clock_reads].
    eapply sound_history_ids; [|exact Hh].
    eapply ids_set_last; [exact El|]. apply entry_id_set, id_key_not_rating.
  - unfold pin_last_clicked.
    destruct (last_entry (history (session w))) as [[| | | | |d]|] eqn:El;
      try exact Hw.
    apply save_sound_let; [assumption|]. split; [|exact Hf].
    cbn [with_session with_history session history clock_reads].
    eapply sound_history_ids; [|exact Hh].
    eapply ids_set_last; [exact El|]. apply entry_id_set, id_key_not_pinned.
Qed.

Lemma run_sound e steps w :
  clock_advances e -> load_reads_saved e ->
  sound_world e w -> sound_world e (run e steps w).
Proof.
  intros Hclock Hinv. revert w.
  induction steps as [|s steps IH]; intros w Hw; [exact Hw|].
  cbn [run fold_left]. apply IH. destruct s as [|op]; cbn [run_step].
  - now apply hydrate_sound.
  - now apply perform_sound.
Qed.

(** C9 (as amended).  Provided distinct reads of the clock render as distinct
    [timestamp()] strings, and the entries the session starts from, in memory
    and in [history.json], have string ids no two of which are equal and none
    of which the clock renders again (a fresh session with no file, or one
    that resumes a file whose entries were stamped earlier), in every state
    reached by reruns of the script and user operations every entry of the
    history has a string id and no two entries share one.  Of the [json]
    module it is used that [json.load] makes of a file a save left nothing but
    the document that was dumped. *)
Theorem ids_pairwise_distinct (e : env) (w : world) (steps : list step) :
  clock_advances e ->
  load_reads_saved e ->
  sound_world e w ->
  let h := history (session (run e steps w)) in
  NoDup (ids h) /\
  Forall (fun x => exists s, entry_id x = Some (JStr s)) h.
Proof.
  intros Hclock Hload Hstart h.
  assert (Hw : sound_world e (run e steps w)) by now apply run_sound.
  destruct Hw as [[Hm Hd] _]. fold h in Hm, Hd. split; [exact Hd|].
  unfold ids in Hm. rewrite Forall_map in Hm.
  eapply Forall_impl; [|exact Hm]. intros x (s & Hs & _). eauto.
Qed.

Lemma ticking_clock_advances key raises pieces loads message :
  clock_advances (Env key raises ticking_clock pieces loads message).
Proof.
  intros i j H.
  change (print_int (1700000000 + Z.of_nat i) ++ lit ".5"
          = print_int (1700000000 + Z.of_nat j) ++ lit ".5") in H.
  apply app_inv_tail in H. apply print_int_injective in H. lia.
Qed.

(** The session of the witness resumes a file whose entry was stamped a day
    before the clock's first reading. *)
Lemma resumed_world_sound : sound_world configured_env (initial_world resumed_fs).
Proof.
  split; [split; constructor|].
  cbn [initial_world fs history_json resumed_fs sound_file clock_reads].
  intros d items Hl Hi.
  change (json_loads configured_env) with ref_loads in Hl.
  rewrite ref_loads_dumps in Hl. inversion Hl. subst d.
  vm_compute in Hi. inversion Hi. subst items. clear Hl Hi.
  split.
  - constructor; [|constructor].
    exists (print_int 1699913600 ++ lit ".5"). split; [reflexivity|].
    intros k _ E.
    change (print_int (1700000000 + Z.of_nat k) ++ lit ".5"
            = print_int 1699913600 ++ lit ".5") in E.
    apply app_inv_tail in E. apply print_int_injective in E. lia.
  - constructor; [intros []|constructor].
Qed.

Lemma ids_pairwise_distinct_witness :
  let h := history (session
    (run configured_env
       [Do (SetPersist true); Rerun; Do (Upload (Decoded sample_image));
        Do (Send (lit "Summarize") beach_stub); Rerun;
        Do (Send (lit "And the colors?") timeout_stub); Do (Rate 4); Rerun]
       (initial_world resumed_fs))) in
  NoDup (ids h) /\
  Forall (fun x => exists s, entry_id x = Some (JStr s)) h.
Proof.
  apply (ids_pairwise_distinct configured_env (initial_world resumed_fs)).
  - apply ticking_clock_advances.
  - apply ref_load_reads_saved.
  - apply resumed_world_sound.
Defined.

(** C9 (as stated) fails when the clock gives the same reading to two sends:
    both entries get the same id. *)
Lemma same_clock_reading_same_id :
  ids (history (session
    (run frozen_env
       [Rerun; Do (Upload (Decoded sample_image));
        Rerun; Do (Send (lit "Summarize") beach_stub);
        Rerun; Do (Send (lit "And the colors?") beach_stub)]
       (initial_world empty_fs))))
  = [Some (JStr (lit "1700000000.5")); Some (JStr (lit "1700000000.5"))] /\
  ~ NoDup [Some (JStr (lit "1700000000.5")); Some (JStr (lit "1700000000.5"))].
Proof.
  split; [reflexivity|].
  intro H. inversion H as [|? ? Hin _]. apply Hin. now left.
Qed.

(** * Further properties of the handlers *)

(** ** Trimming *)

Lemma lstrip_split (s : pystr) :
  exists pre, s = pre ++ lstrip s /\ forallb isspace pre = true.
Proof.
  induction s as [|c s (pre & E & Hp)].
  - exists []. split; reflexivity.
  - cbn [lstrip]. destruct (isspace c) eqn:Ec.
    + exists (c :: pre). split; [cbn; now f_equal | cbn; now rewrite Ec].
    + exists []. split; reflexivity.
Qed.

Lemma lstrip_head (s : pystr) :
  match lstrip s with [] => True | c :: _ => isspace c = false end.
Proof.
  induction s as [|c s IH]; [exact I|].
  cbn [lstrip]. destruct (isspace c) eqn:Ec; [exact IH | exact Ec].
Qed.

Lemma lstrip_fixed (s : pystr) :
  match s with [] => True | c :: _ => isspace c = false end -> lstrip s = s.
Proof. destruct s as [|c s]; [reflexivity|]. cbn. now intros ->. Qed.

Lemma forallb_rev {A : Type} (f : A -> bool) (l : list A) :
  forallb f (rev l) = forallb f l.
Proof.
  induction l as [|a l IH]; [reflexivity|].
  cbn [rev forallb]. rewrite forallb_app, IH. cbn. now rewrite andb_true_r, andb_comm.
Qed.

Lemma rstrip_split (s : pystr) :
  exists post, s = rstrip s ++ post /\ forallb isspace post = true.
Proof.
  unfold rstrip. destruct (lstrip_split (rev s)) as (pre & E & Hp).
  exists (rev pre). split.
  - rewrite <- rev_app_distr, <- E. now rewrite rev_involutive.
  - now rewrite forallb_rev.
Qed.

Lemma rstrip_last (s : pystr) :
  match rev (rstrip s) with [] => True | c :: _ => isspace c = false end.
Proof. unfold rstrip. rewrite rev_involutive. apply lstrip_head. Qed.

Lemma rstrip_head (s : pystr) :
  match s with [] => True | c :: _ => isspace c = false end ->
  match rstrip s with [] => True | c :: _ => isspace c = false end.
Proof.
  intro Hs. destruct (rstrip_split s) as (post & E & _).
  destruct (rstrip s) as [|c t]; [exact I|].
  rewrite E in Hs. exact Hs.
Qed.

Lemma strip_ends (s : pystr) :
  match strip s with [] => True | c :: _ => isspace c = false end /\
  match rev (strip s) with [] => True | c :: _ => isspace c = false end.
Proof.
  unfold strip. split; [apply rstrip_head, lstrip_head | apply rstrip_last].
Qed.


Lemma strip_idempotent (s : pystr) : strip (strip s) = strip s.
Proof.
  destruct (strip_ends s) as [Hh Hl].
  unfold strip at 1. rewrite (lstrip_fixed _ Hh).
  unfold rstrip. rewrite (lstrip_fixed _ Hl). apply rev_involutive.
Qed.

Lemma lstrip_blank (s : pystr) : forallb isspace s = true -> lstrip s = [].
Proof.
  induction s as [|c s IH]; [reflexivity|].
  cbn. intro H. apply andb_prop in H. destruct H as [Hc Hs]. rewrite Hc. auto.
Qed.

Lemma strip_empty_iff (s : pystr) : strip s = [] <-> forallb isspace s = true.
Proof.
  split.
  - intro H. unfold strip in H.
    destruct (lstrip_split s) as (pre & E1 & Hpre).
    destruct (rstrip_split (lstrip s)) as (post & E2 & Hpost).
    rewrite H in E2. cbn in E2. rewrite E1, E2, forallb_app, Hpre, Hpost. reflexivity.
  - intro H. unfold strip. now rewrite (lstrip_blank s H).
Qed.

(** ** What a send records *)

(** X2.  With a key and an image, the send is refused for its question exactly
    when the prompt has nothing but whitespace in it (the empty prompt
    included). *)
Theorem send_refuses_exactly_blank_prompts (e : env) (prompt : pystr)
    (reply : pystr -> image -> result) (w : world) (img : image) :
  API_KEY e <> [] ->
  current_image (session w) = Some img ->
  (send_clicked e prompt reply w = (w, [StError msg_no_question])
   <-> forallb isspace prompt = true).
Proof.
  intros Hkey Himg. rewrite <- strip_empty_iff. split.
  - intro H. destruct (list_eq_dec N.eq_dec (strip prompt) []) as [Hq|Hq]; [exact Hq|].
    pose proof (send_clicked_accepted e prompt reply w img Hkey Himg Hq) as [Hs _].
    cbv zeta in Hs. rewrite H in Hs. cbn [fst] in Hs.
    apply (f_equal (fun s => length (history s))) in Hs. cbn [history] in Hs.
    rewrite length_app in Hs. cbn [length] in Hs. lia.
  - intro Hq. unfold send_clicked. apply is_empty_false in Hkey.
    now rewrite Hkey, Himg, Hq.
Qed.

Lemma send_refuses_exactly_blank_prompts_witness :
  send_clicked configured_env [32; 9; 160; 8195] beach_stub ready_world
    = (ready_world, [StError msg_no_question]).
Proof.
  apply (send_refuses_exactly_blank_prompts configured_env [32; 9; 160; 8195]
           beach_stub ready_world sample_image).
  - vm_compute. discriminate.
  - reflexivity.
  - reflexivity.
Defined.




(** ** Operations and the file *)

(** Every operation is an update of the session in memory followed by at most
    one save; the update does not look at the file, a change of the history is
    always followed by the save, and only the checkbox changes the opt-in. *)
Lemma perform_factor e op s n :
  exists s' n' (saves : bool),
    (forall f,
      fst (perform e op (World s f n))
        = if saves then fst (save_history_to_disk e (World s' f n'))
          else World s' f n') /\
    (n <= n')%nat /\
    (saves = false -> history s' = history s) /\
    (saves = true -> persist_opt_in s' = persist_opt_in s) /\
    ((forall b, op <> SetPersist b) -> persist_opt_in s' = persist_opt_in s).
Proof.
  assert (Hsame : forall w' : filesystem -> world,
            (forall f, w' f = World s f n) ->
            exists s' n' (saves : bool),
              (forall f, w' f = if saves
                                then fst (save_history_to_disk e (World s' f n'))
                                else World s' f n') /\
              (n <= n')%nat /\
              (saves = false -> history s' = history s) /\
              (saves = true -> persist_opt_in s' = persist_opt_in s) /\
              ((forall b, op <> SetPersist b) -> persist_opt_in s' = persist_opt_in s)).
  { intros w' H. exists s, n, false. repeat split; auto. }
  destruct op as [b| | |j|r|prompt reply|rr|]; cbn [perform].
  - exists (with_persist b s), n, false.
    split; [reflexivity|]. split; [lia|]. split; [reflexivity|].
    split; [discriminate|]. intro H. now destruct (H b).
  - exists (with_history [] s), n, true.
    split; [intro f; unfold clear_history_clicked; now rewrite fst_let|].
    split; [lia|]. split; [discriminate|]. split; reflexivity.
  - exists s, (S n), false.
    split; [intro f; apply export_clicked_world|]. split; [lia|]. repeat split.
  - unfold sidebar_pin_clicked. cbn [session history].
    destruct (negb _); [apply Hsame; reflexivity|].
    destruct (nth_error (history s) j) as [[| | | | |d]|];
      try (apply Hsame; reflexivity).
    eexists. exists n, true.
    split; [intro f; reflexivity|]. split; [lia|]. split; [discriminate|]. split; reflexivity.
  - destruct r as [img| |exn]; cbn [uploaded session].
    + eexists. exists n, false.
      split; [intro f; reflexivity|]. split; [lia|].
      repeat split; intros _; cbn; destruct (negb _); reflexivity.
    + exists (with_image None s), n, false.
      split; [reflexivity|]. split; [lia|]. repeat split.
    + apply Hsame. reflexivity.
  - unfold send_clicked. cbn [session].
    destruct (is_empty (API_KEY e)); [apply Hsame; reflexivity|].
    destruct (current_image s); [|apply Hsame; reflexivity].
    destruct (is_empty (strip prompt)); [apply Hsame; reflexivity|].
    cbn [now_stamp now_iso session fs clock_reads].
    eexists. exists (S (S n)), true.
    split; [intro f; rewrite fst_let; reflexivity|].
    split; [lia|]. split; [discriminate|]. split; reflexivity.
  - unfold save_rating_clicked. cbn [session].
    destruct (last_entry (history s)) as [last|]; [|apply Hsame; reflexivity].
    destruct (setitem last (lit "rating") (JInt rr)) as [last'|];
      [|apply Hsame; reflexivity].
    eexists. exists n, true.
    split; [intro f; rewrite fst_let; reflexivity|].
    split; [lia|]. split; [discriminate|]. split; reflexivity.
  - unfold pin_last_clicked. cbn [session].
    destruct (last_entry (history s)) as [[| | | | |d]|];
      try (apply Hsame; reflexivity).
    eexists. exists n, true.
    split; [intro f; rewrite fst_let; reflexivity|].
    split; [lia|]. split; [discriminate|]. split; reflexivity.
Qed.

Lemma world_eta (w : world) : World (session w) (fs w) (clock_reads w) = w.
Proof. now destruct w. Qed.

Lemma save_off e w :
  persist_opt_in (session w) = false -> fst (save_history_to_disk e w) = w.
Proof. intro H. unfold save_history_to_disk. now rewrite H. Qed.

Lemma save_clock e w : (clock_reads w <= clock_reads (fst (save_history_to_disk e w)))%nat.
Proof.
  unfold save_history_to_disk. destruct (persist_opt_in (session w)); cbn; [|lia].
  destruct (write_denied (fs w)); cbn; [lia|].
  destruct (write_chunks _); cbn; lia.
Qed.

Lemma save_write_denied e w :
  write_denied (fs (fst (save_history_to_disk e w))) = write_denied (fs w).
Proof.
  unfold save_history_to_disk. destruct (persist_opt_in (session w)); cbn; [|reflexivity].
  destruct (write_denied (fs w)) eqn:E; cbn; [congruence|].
  destruct (write_chunks _); cbn; congruence.
Qed.

Lemma save_denied e w msg :
  persist_opt_in (session w) = true -> write_denied (fs w) = Some msg ->
  save_history_to_disk e w
    = (w, [StWarning (lit "Could not save history to disk: " ++ msg)]).
Proof. intros Hp Hw. unfold save_history_to_disk. now rewrite Hp, Hw. Qed.

(** An operation and what it shows: a session update, then at most one save
    whose messages come first. *)
Lemma perform_outcome e op s n :
  exists s' n' (saves : bool) tail,
    (forall f,
      perform e op (World s f n)
        = if saves
          then (fst (save_history_to_disk e (World s' f n')),
                snd (save_history_to_disk e (World s' f n')) ++ tail)
          else (World s' f n', tail)) /\
    (saves = false -> history s' = history s) /\
    (saves = true -> persist_opt_in s' = persist_opt_in s).
Proof.
  assert (Hlet : forall (p : world * list ui_event) tail,
            (let (w2, ev) := p in (w2, ev ++ tail)) = (fst p, snd p ++ tail)).
  { now intros [w2 ev] tail. }
  assert (Hsame : forall (tail : list ui_event) (out : filesystem -> world * list ui_event),
            (forall f, out f = (World s f n, tail)) ->
            exists s' n' (saves : bool) tail,
              (forall f, out f = if saves
                                 then (fst (save_history_to_disk e (World s' f n')),
                                       snd (save_history_to_disk e (World s' f n')) ++ tail)
                                 else (World s' f n', tail)) /\
              (saves = false -> history s' = history s) /\
              (saves = true -> persist_opt_in s' = persist_opt_in s)).
  { intros tail out H. exists s, n, false, tail.
    split; [exact H|]. split; [reflexivity|discriminate]. }
  destruct op as [b| | |j|r|prompt reply|rr|]; cbn [perform].
  - exists (with_persist b s), n, false, [].
    split; [reflexivity|]. split; [reflexivity|discriminate].
  - eexists (with_history [] s), n, true, _.
    split; [intro f; unfold clear_history_clicked; apply Hlet|].
    split; [discriminate|reflexivity].
  - assert (Hex : exists tail,
              forall f, export_clicked e (World s f n) = (World s f (S n), tail)).
    { unfold export_clicked, export_history_bytes, now_iso.
      cbn [session history clock_reads fs].
      destruct (utf8_encode _); eexists; intro f; reflexivity. }
    destruct Hex as (tail & Hex). exists s, (S n), false, tail.
    split; [exact Hex|]. split; [reflexivity|discriminate].
  - unfold sidebar_pin_clicked. cbn [session history].
    destruct (negb _); [eapply Hsame; reflexivity|].
    destruct (nth_error (history s) j) as [[| | | | |d]|];
      try (eapply Hsame; reflexivity).
    eexists. exists n, true, [].
    split; [intro f; rewrite app_nil_r; unfold with_session;
            cbn [fs clock_reads session]; apply surjective_pairing|].
    split; [discriminate|reflexivity].
  - destruct r as [img| |exn]; cbn [uploaded session].
    + eexists. exists n, false, [].
      split; [intro f; reflexivity|].
      split; [intros _; cbn; destruct (negb _); reflexivity|discriminate].
    + eexists (with_image None s), n, false, _.
      split; [reflexivity|]. split; [reflexivity|discriminate].
    + eapply Hsame. reflexivity.
  - unfold send_clicked. cbn [session].
    destruct (is_empty (API_KEY e)); [eapply Hsame; reflexivity|].
    destruct (current_image s); [|eapply Hsame; reflexivity].
    destruct (is_empty (strip prompt)); [eapply Hsame; reflexivity|].
    cbn [now_stamp now_iso session fs clock_reads].
    eexists. exists (S (S n)), true. eexists.
    split; [intro f; apply Hlet|]. split; [discriminate|reflexivity].
  - unfold save_rating_clicked. cbn [session].
    destruct (last_entry (history s)) as [last|]; [|eapply Hsame; reflexivity].
    destruct (setitem last (lit "rating") (JInt rr)) as [last'|];
      [|eapply Hsame; reflexivity].
    eexists. exists n, true. eexists.
    split; [intro f; apply Hlet|]. split; [discriminate|reflexivity].
  - unfold pin_last_clicked. cbn [session].
    destruct (last_entry (history s)) as [[| | | | |d]|];
      try (eapply Hsame; reflexivity).
    eexists. exists n, true. eexists.
    split; [intro f; apply Hlet|]. split; [discriminate|reflexivity].
Qed.

(** X4.  The session an operation leaves does not depend on the file: whether
    [history.json] exists, what it holds and whether it can be written change
    nothing of what happens in memory. *)
Theorem operations_ignore_the_file (e : env) (op : operation)
    (s : session_state) (n : nat) (f f' : filesystem) :
  session (fst (perform e op (World s f n)))
    = session (fst (perform e op (World s f' n))).
Proof.
  destruct (perform_factor e op s n) as (s' & n' & saves & H & _).
  rewrite (H f), (H f'). destruct saves; [|reflexivity].
  now rewrite !save_session.
Qed.

Lemma perform_persist_off e op w :
  persist_opt_in (session w) = false -> (forall b, op <> SetPersist b) ->
  fs (fst (perform e op w)) = fs w /\
  persist_opt_in (session (fst (perform e op w))) = false.
Proof.
  intros Hoff Hop. rewrite <- (world_eta w).
  destruct (perform_factor e op (session w) (clock_reads w))
    as (s' & n' & saves & H & _ & _ & _ & Hp).
  rewrite (H (fs w)). specialize (Hp Hop). rewrite Hoff in Hp.
  destruct saves; [rewrite save_off by exact Hp|]; cbn; auto.
Qed.

(** X3.  While persistence is off nothing is written: in an execution that starts
    with the opt-in off and never ticks the checkbox, the file system after
    the execution is the one before it, whatever was sent, rated, pinned,
    cleared, uploaded or exported. *)
Theorem no_write_without_opt_in (e : env) (steps : list step) (w : world) :
  persist_opt_in (session w) = false ->
  (forall b, ~ In (Do (SetPersist b)) steps) ->
  fs (run e steps w) = fs w /\
  persist_opt_in (session (run e steps w)) = false.
Proof.
  revert w. induction steps as [|st steps IH]; intros w Hoff Hno; [now split|].
  cbn [run fold_left].
  assert (Hstep : fs (run_step e st w) = fs w /\
                  persist_opt_in (session (run_step e st w)) = false).
  { destruct st as [|op]; cbn [run_step].
    - unfold hydrate. rewrite Hoff. now split.
    - apply perform_persist_off; [assumption|].
      intros b ->. apply (Hno b). now left. }
  destruct Hstep as [Hf Hp].
  destruct (IH (run_step e st w) Hp) as [Hf' Hp'].
  - intros b Hin. apply (Hno b). now right.
  - unfold run in *. rewrite Hf'. now split.
Qed.

Lemma no_write_without_opt_in_witness :
  fs (run configured_env
        [Rerun; Do (Upload (Decoded sample_image)); Rerun;
         Do (Send (lit "Summarize") beach_stub); Rerun; Do (Rate 5);
         Do PinLast; Do Export; Do Clear]
        (initial_world garbled_fs))
  = garbled_fs.
Proof.
  apply (no_write_without_opt_in configured_env
           [Rerun; Do (Upload (Decoded sample_image)); Rerun;
            Do (Send (lit "Summarize") beach_stub); Rerun; Do (Rate 5);
            Do PinLast; Do Export; Do Clear]
           (initial_world garbled_fs)).
  - reflexivity.
  - intros b H. cbn in H. intuition discriminate.
Defined.

(** ** The file mirrors the history *)

Lemma synced_transfer e w1 w2 :
  persist_opt_in (session w1) = persist_opt_in (session w2) ->
  history_json (fs w1) = history_json (fs w2) ->
  history (session w1) = history (session w2) ->
  synced e w1 -> synced e w2.
Proof.
  unfold synced, hydrate, load_history_from_disk. intros Hp Hf Hh.
  rewrite Hp, Hf, Hh. destruct (persist_opt_in (session w2)); [|auto].
  destruct (history_json (fs w2)) as [| |text]; auto.
  destruct (json_loads e text) as [[| | | | |d]|]; auto.
  destruct (get_default (lit "items") (JList []) d); auto.
Qed.

Lemma hydrate_only_history e w :
  hydrate e w
    = with_session (with_history (history (session (hydrate e w))) (session w)) w.
Proof.
  destruct w as [[h i p a] f n]. unfold hydrate, load_history_from_disk.
  cbn [session persist_opt_in fs].
  destruct p; [|reflexivity].
  destruct (history_json f) as [| |text]; try reflexivity.
  destruct (json_loads e text) as [[| | | | |d]|]; try reflexivity.
  destruct (get_default (lit "items") (JList []) d); reflexivity.
Qed.

Lemma hydrate_synced e w : synced e w -> hydrate e w = w.
Proof.
  intro H. rewrite hydrate_only_history, H. now destruct w as [[h i p a] f n].
Qed.

(** After a save that reached the file, a reload gives the history in memory:
    the file holds its document, or a part of it that does not load. *)
Lemma save_synced e w :
  load_reads_saved e ->
  persist_opt_in (session w) = true -> write_denied (fs w) = None ->
  synced e (fst (save_history_to_disk e w)).
Proof.
  intros Hload Hp Hd.
  destruct (write_chunks
              (json_chunks e (saved_document (iso (clock e (clock_reads w)))
                                             (history (session w)))))
    as [text failed] eqn:Hwr.
  rewrite (save_written e w Hp Hd _ _ Hwr). cbn [fst].
  unfold synced, hydrate, load_history_from_disk.
  cbn [session fs history_json]. rewrite Hp.
  destruct (json_loads e text) as [v|] eqn:Hl; [|reflexivity].
  destruct (Hload _ _ _ _ _ Hwr Hl) as [_ ->]. reflexivity.
Qed.

(** X6.  With persistence on and a disk that lets the file be opened, an
    operation that changes the history is followed by a save of the new
    history, with [items] the history now in memory.  When the text of that
    document can be encoded (no lone surrogate in it), the file holds the text
    in full.  When it cannot, the file holds only the pieces [json.dump] wrote
    before the one whose encoding raised, and the page shows the warning
    "Could not save history to disk: " followed by the message of the error. *)
Theorem history_change_reaches_the_file (e : env) (op : operation) (w : world) :
  persist_opt_in (session w) = true ->
  write_denied (fs w) = None ->
  history (session (fst (perform e op w))) <> history (session w) ->
  exists t,
    let doc := saved_document t (history (session (fst (perform e op w)))) in
    (encodable (json_dumps e doc) = true ->
     history_json (fs (fst (perform e op w))) = Readable (json_dumps e doc)) /\
    (encodable (json_dumps e doc) = false ->
     exists before chunk after,
       json_chunks e doc = before ++ chunk :: after /\
       encodable (concat before) = true /\
       encodable chunk = false /\
       history_json (fs (fst (perform e op w))) = Readable (concat before) /\
       In (StWarning (lit "Could not save history to disk: " ++ encode_error e chunk))
          (snd (perform e op w))).
Proof.
  intros Hp Hw Hch. rewrite <- (world_eta w) in *.
  destruct (perform_outcome e op (session w) (clock_reads w))
    as (s' & n' & saves & tail & H & Hh & Hps).
  cbn [session fs] in *. rewrite (H (fs w)) in *.
  destruct saves; cbn [fst snd] in *.
  2: { cbn [session] in Hch. now rewrite Hh in Hch. }
  rewrite save_session. cbn [session].
  assert (Hp' : persist_opt_in (session (World s' (fs w) n')) = true).
  { cbn [session]. rewrite Hps by reflexivity. exact Hp. }
  exists (iso (clock e n')). cbv zeta.
  destruct (write_chunks (json_chunks e (saved_document (iso (clock e n')) (history s'))))
    as [text failed] eqn:Hwr.
  rewrite (save_written e (World s' (fs w) n') Hp' Hw text failed Hwr).
  cbn [fst snd fs history_json].
  destruct failed as [chunk|].
  - destruct (write_chunks_cut _ _ _ Hwr) as (before & after & Hcs & -> & Hc & Hall).
    split; [intro Ht; unfold json_dumps in Ht; congruence|].
    intros _. exists before, chunk, after.
    split; [exact Hcs|]. split; [exact (write_chunks_before _ _ _ Hwr)|].
    split; [exact Hc|]. split; [reflexivity|]. apply in_or_app. left. now left.
  - destruct (write_chunks_whole _ _ Hwr) as [-> Henc].
    split; [reflexivity|]. intro Hf. unfold json_dumps in Hf. congruence.
Qed.

Lemma history_change_reaches_the_file_witness :
  exists t,
    let doc := saved_document t
                 (history (session (fst (perform configured_env (Rate 2) two_entry_world)))) in
    (encodable (json_dumps configured_env doc) = true ->
     history_json (fs (fst (perform configured_env (Rate 2) two_entry_world)))
       = Readable (json_dumps configured_env doc)) /\
    (encodable (json_dumps configured_env doc) = false ->
     exists before chunk after,
       json_chunks configured_env doc = before ++ chunk :: after /\
       encodable (concat before) = true /\
       encodable chunk = false /\
       history_json (fs (fst (perform configured_env (Rate 2) two_entry_world)))
         = Readable (concat before) /\
       In (StWarning (lit "Could not save history to disk: "
                        ++ encode_error configured_env chunk))
          (snd (perform configured_env (Rate 2) two_entry_world))).
Proof.
  apply (history_change_reaches_the_file configured_env (Rate 2) two_entry_world).
  - reflexivity.
  - reflexivity.
  - vm_compute. discriminate.
Defined.

(** The two outcomes: a rating is saved in full; a send whose answer holds a
    lone surrogate is recorded in memory, the file is cut off before the
    answer and does not parse, and the warning comes before the bubbles. *)
Example rating_is_saved_in_full :
  history_json (fs (fst (perform configured_env (Rate 2) two_entry_world)))
    = Readable (ref_dumps (saved_document (lit "2023-11-14 22:13:20")
        [sample_entry;
         JDict [(lit "id", JStr (lit "1700000003.25"));
                (lit "timestamp", JStr (lit "2023-11-14 22:13:23"));
                (lit "question", JStr (lit "caf" ++ [233; 32; 128512]));
                (lit "answer",
                 JStr (lit "Sunny " ++ [9728; 65039; 10; 34] ++ lit "beach" ++ [34]));
                (lit "rating", JInt 2);
                (lit "pinned", JBool false)]])) /\
  snd (perform configured_env (Rate 2) two_entry_world)
    = [StSuccess (lit "Thanks for rating!")].
Proof. vm_compute. split; reflexivity. Qed.

Example send_of_surrogate_answer_is_cut_off :
  let w := World (Session [] (Some sample_image) true (Achievements 0 true)) empty_fs 0 in
  let out := perform configured_env (Send (lit "Summarize") surrogate_stub) w in
  exists text tail,
    history_json (fs (fst out)) = Readable text /\
    ref_loads text = None /\
    List.map (field (lit "answer")) (history (session (fst out)))
      = [Some (JStr (lit "ab" ++ [55357] ++ lit "cd"))] /\
    snd out
      = StWarning (lit "Could not save history to disk: 'utf-8' codec can't encode character '\ud83d' in position 3: surrogates not allowed")
        :: tail.
Proof. do 2 eexists. vm_compute. repeat split. Qed.

Lemma perform_keeps_mirror e op w :
  load_reads_saved e ->
  (forall b, op <> SetPersist b) ->
  persist_opt_in (session w) = true -> write_denied (fs w) = None -> synced e w ->
  persist_opt_in (session (fst (perform e op w))) = true /\
  write_denied (fs (fst (perform e op w))) = None /\
  synced e (fst (perform e op w)).
Proof.
  intros Hload Hop Hp Hw Hs. rewrite <- (world_eta w) in *.
  destruct (perform_factor e op (session w) (clock_reads w))
    as (s' & n' & saves & H & _ & Hh & _ & Hps).
  specialize (Hps Hop). rewrite (H (fs w)). cbn [session fs] in *.
  destruct saves.
  - rewrite save_session, save_write_denied. cbn [session fs].
    split; [congruence|]. split; [assumption|].
    apply save_synced; cbn [session fs]; [assumption|congruence|assumption].
  - cbn [session fs]. split; [congruence|]. split; [assumption|].
    eapply synced_transfer; [| | |exact Hs]; cbn [session fs]; auto.
    symmetry. now apply Hh.
Qed.

Lemma run_keeps_mirror e steps w :
  load_reads_saved e ->
  (forall b, ~ In (Do (SetPersist b)) steps) ->
  persist_opt_in (session w) = true -> write_denied (fs w) = None -> synced e w ->
  persist_opt_in (session (run e steps w)) = true /\
  write_denied (fs (run e steps w)) = None /\
  synced e (run e steps w).
Proof.
  intros Hload. revert w.
  induction steps as [|st steps IH]; intros w Hno Hp Hw Hs; [now repeat split|].
  assert (Hno' : forall b, ~ In (Do (SetPersist b)) steps).
  { intros b Hin. apply (Hno b). now right. }
  cbn [run fold_left]. apply IH; try assumption;
    destruct st as [|op]; cbn [run_step];
    try (rewrite (hydrate_synced e w Hs); assumption);
    assert (Hop : forall b, op <> SetPersist b)
      by (intros b ->; apply (Hno b); now left);
    apply (perform_keeps_mirror e op w Hload Hop Hp Hw Hs).
Qed.

(** X7.  The load that each run of the script starts with (lines 139-140)
    finds in the file what is in memory.  With persistence on from the start
    and never switched, a disk that lets the file be opened, a file that
    agrees with the memory at the start (none at all, for one) and [json.load]
    making of a file a save left nothing but the document that was dumped, at
    whatever point of an execution the script starts over, that load leaves
    the world as it is: the history, the rest of the session, the file and
    the clock.  This holds after a save that was cut off as well: the file
    then does not parse and the load keeps the history in memory. *)
Theorem reruns_change_nothing (e : env) (steps : list step) (w : world) :
  load_reads_saved e ->
  persist_opt_in (session w) = true ->
  write_denied (fs w) = None ->
  synced e w ->
  (forall b, ~ In (Do (SetPersist b)) steps) ->
  hydrate e (run e steps w) = run e steps w.
Proof.
  intros Hload Hp Hw Hs Hno. apply hydrate_synced.
  now apply (run_keeps_mirror e steps w Hload Hno Hp Hw Hs).
Qed.

Lemma reruns_change_nothing_witness :
  let w := run configured_env
    [Rerun; Do (Upload (Decoded sample_image)); Rerun;
     Do (Send (lit "Summarize") beach_stub); Rerun; Do Export; Do (Rate 4); Rerun;
     Do PinLast]
    (World (Session [] None true (Achievements 0 false)) empty_fs 0) in
  hydrate configured_env w = w.
Proof.
  apply (reruns_change_nothing configured_env
    [Rerun; Do (Upload (Decoded sample_image)); Rerun;
     Do (Send (lit "Summarize") beach_stub); Rerun; Do Export; Do (Rate 4); Rerun;
     Do PinLast]
    (World (Session [] None true (Achievements 0 false)) empty_fs 0)).
  - apply ref_load_reads_saved.
  - reflexivity.
  - reflexivity.
  - reflexivity.
  - intros b H. cbn in H. intuition discriminate.
Defined.

(** X8.  Ticking the persistence checkbox while a [history.json] with a list of
    items exists replaces the conversation in memory at the next run of the
    script: the history becomes the items of the file, whatever it was, and
    the entries that were only in memory are gone. *)
Theorem opting_in_loads_the_old_file (e : env) (w : world) (text : pystr)
    (d : list (pystr * json)) (items : list json) :
  history_json (fs w) = Readable text ->
  json_loads e text = Some (JDict d) ->
  get_default (lit "items") (JList []) d = JList items ->
  history (session (run e [Do (SetPersist true); Rerun] w)) = items.
Proof.
  intros Hf Hl Hi. cbn [run fold_left run_step perform fst].
  unfold hydrate, persist_checkbox. cbn [session with_session with_persist persist_opt_in].
  erewrite load_after_write; [reflexivity | exact Hf | exact Hl | exact Hi].
Qed.

Lemma opting_in_loads_the_old_file_witness :
  history (session (World (Session [emoji_entry] None false (Achievements 1 true))
                          earlier_session_fs 2)) = [emoji_entry] /\
  history (session (run configured_env [Do (SetPersist true); Rerun]
                      (World (Session [emoji_entry] None false (Achievements 1 true))
                             earlier_session_fs 2)))
    = [sample_entry].
Proof.
  split; [reflexivity|].
  apply (opting_in_loads_the_old_file configured_env
           (World (Session [emoji_entry] None false (Achievements 1 true))
                  earlier_session_fs 2)
           (ref_dumps (JDict [(lit "saved_at", JStr (lit "2023-11-13 09:00:00"));
                              (lit "items", JList [sample_entry])]))
           [(lit "saved_at", JStr (lit "2023-11-13 09:00:00"));
            (lit "items", JList [sample_entry])]).
  - reflexivity.
  - apply ref_loads_dumps.
  - reflexivity.
Defined.

(** X9.  A load touches nothing but the history (the image, the opt-in, the
    achievements, the file and the clock are as before), and a second load
    right after it changes nothing any more. *)
Theorem load_touches_only_history (e : env) (w : world) :
  let w' := load_history_from_disk e w in
  current_image (session w') = current_image (session w) /\
  persist_opt_in (session w') = persist_opt_in (session w) /\
  achievements (session w') = achievements (session w) /\
  fs w' = fs w /\
  clock_reads w' = clock_reads w /\
  load_history_from_disk e w' = w'.
Proof.
  destruct w as [[h i p a] f n]. unfold load_history_from_disk.
  unfold with_session, with_history. cbn [fs session].
  destruct (history_json f) as [| |text] eqn:Ef;
    cbn [fs session history current_image persist_opt_in achievements clock_reads];
    rewrite ?Ef; try (repeat split; reflexivity).
  destruct (json_loads e text) as [[| | | | |d]|] eqn:El;
    cbn [fs session history current_image persist_opt_in achievements clock_reads];
    rewrite ?Ef, ?El; try (repeat split; reflexivity).
  destruct (get_default (lit "items") (JList []) d) eqn:Ei;
    cbn [fs session history current_image persist_opt_in achievements clock_reads];
    rewrite ?Ef, ?El, ?Ei; repeat split; reflexivity.
Qed.

(** X10.  A file that holds a JSON object without the key [items] empties the
    history: the default of [data.get("items", [])] is a list, and it is
    assigned. *)
Theorem load_without_items_key_empties_history (e : env) (w : world)
    (text : pystr) (d : list (pystr * json)) :
  history_json (fs w) = Readable text ->
  json_loads e text = Some (JDict d) ->
  assoc_get (lit "items") d = None ->
  history (session (load_history_from_disk e w)) = [].
Proof.
  intros Hf Hl Hi.
  erewrite load_after_write; [reflexivity | exact Hf | exact Hl |].
  unfold get_default. now rewrite Hi.
Qed.

Lemma load_without_items_key_empties_history_witness :
  history (session (World (session one_entry_world) no_items_fs 2)) = [sample_entry] /\
  history (session (load_history_from_disk configured_env
                      (World (session one_entry_world) no_items_fs 2))) = [].
Proof.
  split; [reflexivity|].
  apply (load_without_items_key_empties_history configured_env
           (World (session one_entry_world) no_items_fs 2)
           (ref_dumps (JDict [(lit "saved_at", JStr (lit "2023-11-13 09:00:00"))]))
           [(lit "saved_at", JStr (lit "2023-11-13 09:00:00"))]).
  - reflexivity.
  - apply ref_loads_dumps.
  - reflexivity.
Defined.

(** ** What each operation does to the session *)

Lemma list_update_last {A : Type} (x : A) (h : list A) (y : A) :
  nth_error h (length h - 1) = Some y ->
  list_update (length h - 1) x h = removelast h ++ [x].
Proof.
  induction h as [|a [|b h] IH]; intro H; [discriminate|reflexivity|].
  change (removelast (a :: b :: h)) with (a :: removelast (b :: h)).
  replace (length (a :: b :: h) - 1)%nat with (S (length (b :: h) - 1)) in *
    by (cbn [length]; lia).
  cbn [list_update nth_error app] in *. f_equal. now apply IH.
Qed.

Lemma length_list_update {A : Type} (i : nat) (x : A) (h : list A) :
  length (list_update i x h) = length h.
Proof.
  revert i. induction h as [|a h IH]; intros [|i]; cbn; auto.
Qed.

(** The session after an operation is the session before it, or one of six
    updates of it. *)
Lemma perform_session e op w :
  let s := session w in
  let s' := session (fst (perform e op w)) in
  s' = s
  \/ (exists b, op = SetPersist b /\ s' = with_persist b s)
  \/ (op = Clear /\ s' = with_history [] s)
  \/ (exists j d k v,
        (op = PinSidebar j \/ op = PinLast \/ exists rr, op = Rate rr) /\
        nth_error (history s) j = Some (JDict d) /\
        (k = lit "rating" \/ k = lit "pinned") /\
        s' = with_history (list_update j (JDict (assoc_set k v d)) (history s)) s)
  \/ (exists img, op = Upload (Decoded img) /\
        s' = Session (history s) (Some img) (persist_opt_in s)
               (Achievements (questions_today (achievements s)) true))
  \/ (op = Upload Unidentified /\ s' = with_image None s)
  \/ (exists prompt reply id ts question answer,
        op = Send prompt reply /\
        s' = Session (history s ++ [new_entry id ts question answer])
               (current_image s) (persist_opt_in s)
               (Achievements (questions_today (achievements s) + 1)
                             (first_upload_done (achievements s)))).
Proof.
  intros s s'. subst s s'.
  destruct op as [b| | |j|r|prompt reply|rr|]; cbn [perform].
  - right. left. exists b. split; reflexivity.
  - right. right. left. split; [reflexivity|].
    unfold clear_history_clicked. now rewrite fst_let, save_session.
  - left. now rewrite export_clicked_world.
  - unfold sidebar_pin_clicked.
    destruct (negb _); [now left|].
    destruct (nth_error (history (session w)) j) as [[| | | | |d]|] eqn:Ej;
      try (now left).
    right. right. right. left.
    exists j, d, (lit "pinned"). eexists.
    split; [now left|]. split; [exact Ej|]. split; [now right|].
    rewrite save_session. reflexivity.
  - destruct r as [img| |exn]; cbn [uploaded fst].
    + right. right. right. right. left. exists img. split; [reflexivity|].
      destruct w as [[h i p [qt fud]] f n]. destruct fud; reflexivity.
    + right. right. right. right. right. left. split; reflexivity.
    + now left.
  - unfold send_clicked.
    destruct (is_empty (API_KEY e)); [now left|].
    destruct (current_image (session w)) as [img|] eqn:Ei; [|now left].
    destruct (is_empty (strip prompt)); [now left|].
    do 6 right. cbn [now_stamp now_iso]. rewrite fst_let, save_session.
    exists prompt, reply. do 4 eexists. split; [reflexivity|].
    unfold with_session, with_achievements, with_history. cbn. rewrite Ei. reflexivity.
  - unfold save_rating_clicked.
    destruct (last_entry (history (session w))) as [last|] eqn:El; [|now left].
    destruct last as [| | | | |d]; cbn [setitem]; try (now left).
    right. right. right. left.
    exists (length (history (session w)) - 1)%nat, d, (lit "rating"), (JInt rr).
    split; [right; right; now exists rr|]. split; [exact El|]. split; [now left|].
    rewrite fst_let, save_session. cbn [with_session session]. unfold set_last.
    now rewrite (list_update_last _ _ _ El).
  - unfold pin_last_clicked.
    destruct (last_entry (history (session w))) as [[| | | | |d]|] eqn:El;
      try (now left).
    right. right. right. left.
    exists (length (history (session w)) - 1)%nat, d, (lit "pinned"). eexists.
    split; [right; now left|]. split; [exact El|]. split; [now right|].
    rewrite fst_let, save_session. cbn [with_session session]. unfold set_last.
    now rewrite (list_update_last _ _ _ El).
Qed.

(** X12.  Each part of the session has its own writers: only an upload changes the
    image or [first_upload_done], only the checkbox changes the opt-in, only a
    send changes [questions_today], and the checkbox, an upload and an export
    never change the history. *)
Theorem session_fields_have_their_writers (e : env) (op : operation) (w : world) :
  let s := session w in
  let s' := session (fst (perform e op w)) in
  ((forall r, op <> Upload r) ->
     current_image s' = current_image s /\
     first_upload_done (achievements s') = first_upload_done (achievements s)) /\
  ((forall b, op <> SetPersist b) -> persist_opt_in s' = persist_opt_in s) /\
  ((forall prompt reply, op <> Send prompt reply) ->
     questions_today (achievements s') = questions_today (achievements s)) /\
  ((exists b, op = SetPersist b) \/ (exists r, op = Upload r) \/ op = Export ->
     history s' = history s).
Proof.
  cbv zeta.
  destruct (perform_session e op w)
    as [H|[(b & Hop & H)|[(Hop & H)|[(j & d & k & v & Hop & _ & _ & H)|
        [(img & Hop & H)|[(Hop & H)|(p & r & id & ts & q & a & Hop & H)]]]]]];
    cbv zeta in H; rewrite H; clear H;
    cbn [with_persist with_history with_image history current_image persist_opt_in
         achievements questions_today first_upload_done].
  - (split; [|split; [|split]]); intros Hn; try split; reflexivity.
  - subst op. (split; [|split; [|split]]); intros Hn; try split; try reflexivity.
    now destruct (Hn b).
  - subst op. (split; [|split; [|split]]); intros Hn; try split; try reflexivity.
    destruct Hn as [[b Hn]|[[r Hn]|Hn]]; discriminate.
  - (split; [|split; [|split]]); intros Hn; try split; try reflexivity.
    destruct Hop as [Hop|[Hop|[rr Hop]]]; subst op;
      destruct Hn as [[b Hn]|[[r Hn]|Hn]]; discriminate.
  - subst op. (split; [|split; [|split]]); intros Hn; try split; try reflexivity;
      now destruct (Hn (Decoded img)).
  - subst op. (split; [|split; [|split]]); intros Hn; try split; try reflexivity.
    now destruct (Hn Unidentified).
  - subst op. (split; [|split; [|split]]); intros Hn; try split; try reflexivity.
    + now destruct (Hn p r).
    + destruct Hn as [[b Hn]|[[r' Hn]|Hn]]; discriminate.
Qed.

(** ** Counting *)

Lemma perform_counts e op w :
  let s := session w in
  let s' := session (fst (perform e op w)) in
  (questions_today (achievements s) <= questions_today (achievements s'))%Z /\
  (first_upload_done (achievements s) = true ->
   first_upload_done (achievements s') = true) /\
  (op <> Clear ->
   (Z.of_nat (length (history s')) - Z.of_nat (length (history s))
    = questions_today (achievements s') - questions_today (achievements s))%Z).
Proof.
  cbv zeta.
  destruct (perform_session e op w)
    as [H|[(b & Hop & H)|[(Hop & H)|[(j & d & k & v & Hop & _ & _ & H)|
        [(img & Hop & H)|[(Hop & H)|(p & r & id & ts & q & a & Hop & H)]]]]]];
    cbv zeta in H; rewrite H; clear H;
    cbn [with_persist with_history with_image history current_image persist_opt_in
         achievements questions_today first_upload_done];
    (split; [lia|split; [auto|intro Hn; try congruence; try lia]]).
  - rewrite length_list_update. lia.
  - rewrite length_app. cbn [length]. lia.
Qed.

Lemma hydrate_achievements e w :
  achievements (session (hydrate e w)) = achievements (session w).
Proof. rewrite hydrate_only_history. reflexivity. Qed.

(** X13.  The achievements never go back: over any execution, reruns included,
    [questions_today] does not decrease and [first_upload_done], once true,
    stays true (clearing the history resets neither). *)
Theorem achievements_never_go_back (e : env) (steps : list step) (w : world) :
  (questions_today (achievements (session w))
     <= questions_today (achievements (session (run e steps w))))%Z /\
  (first_upload_done (achievements (session w)) = true ->
   first_upload_done (achievements (session (run e steps w))) = true).
Proof.
  revert w. induction steps as [|st steps IH]; intro w;
    [unfold run; cbn [fold_left]; split; [lia|auto]|].
  cbn [run fold_left]. destruct (IH (run_step e st w)) as [Hq Hf].
  fold (run e steps (run_step e st w)) in *.
  assert (Hstep :
    (questions_today (achievements (session w))
       <= questions_today (achievements (session (run_step e st w))))%Z /\
    (first_upload_done (achievements (session w)) = true ->
     first_upload_done (achievements (session (run_step e st w))) = true)).
  { destruct st as [|op]; cbn [run_step].
    - rewrite hydrate_achievements. split; [lia|auto].
    - destruct (perform_counts e op w) as (H1 & H2 & _). now split. }
  destruct Hstep as [Hq' Hf']. split; [lia|auto].
Qed.

(** X14.  In a session that never opts in to persistence and never clears, the
    history has one entry per counted question: over any such execution,
    reruns included, the history grows by exactly as many entries as
    [questions_today] grows. *)
Theorem history_grows_with_the_counter (e : env) (steps : list step) (w : world) :
  persist_opt_in (session w) = false ->
  (forall b, ~ In (Do (SetPersist b)) steps) ->
  ~ In (Do Clear) steps ->
  (Z.of_nat (length (history (session (run e steps w))))
     - Z.of_nat (length (history (session w)))
   = questions_today (achievements (session (run e steps w)))
     - questions_today (achievements (session w)))%Z.
Proof.
  revert w. induction steps as [|st steps IH]; intros w Hoff Hp Hc;
    [unfold run; cbn [fold_left]; lia|].
  cbn [run fold_left]. fold (run e steps (run_step e st w)).
  assert (Hp' : forall b, ~ In (Do (SetPersist b)) steps).
  { intros b H. apply (Hp b). now right. }
  assert (Hc' : ~ In (Do Clear) steps) by (intro H; apply Hc; now right).
  destruct st as [|op]; cbn [run_step] in *.
  - unfold hydrate in *. rewrite Hoff in *. now apply IH.
  - assert (Hop : forall b, op <> SetPersist b).
    { intros b ->. apply (Hp b). now left. }
    destruct (perform_persist_off e op w Hoff Hop) as [_ Hoff'].
    pose proof (IH _ Hoff' Hp' Hc') as H1.
    destruct (perform_counts e op w) as (_ & _ & H2).
    assert (Hno : op <> Clear) by (intros ->; apply Hc; now left).
    specialize (H2 Hno). lia.
Qed.

Lemma history_grows_with_the_counter_witness :
  (Z.of_nat (length (history (session
      (run configured_env
         [Rerun; Do (Upload (Decoded sample_image)); Rerun;
          Do (Send (lit "Summarize") beach_stub); Rerun;
          Do (Send (lit "  ") beach_stub); Rerun; Do (Rate 5); Rerun;
          Do (Send (lit "And the colors?") timeout_stub)]
         (initial_world empty_fs)))))
     - Z.of_nat (length (history (session (initial_world empty_fs))))
   = questions_today (achievements (session
      (run configured_env
         [Rerun; Do (Upload (Decoded sample_image)); Rerun;
          Do (Send (lit "Summarize") beach_stub); Rerun;
          Do (Send (lit "  ") beach_stub); Rerun; Do (Rate 5); Rerun;
          Do (Send (lit "And the colors?") timeout_stub)]
         (initial_world empty_fs))))
     - questions_today (achievements (session (initial_world empty_fs))))%Z.
Proof.
  apply (history_grows_with_the_counter configured_env).
  - reflexivity.
  - intros b H. cbn in H. intuition discriminate.
  - cbn. intuition discriminate.
Defined.

(** ** Entries are only appended, rated and pinned *)

Lemma same_exchange_refl x : same_exchange x x.
Proof. now left. Qed.

Lemma Forall2_same_exchange_refl h : Forall2 same_exchange h h.
Proof. induction h; constructor; auto using same_exchange_refl. Qed.

Lemma Forall2_list_update h j d k v :
  nth_error h j = Some (JDict d) ->
  (k = lit "rating" \/ k = lit "pinned") ->
  Forall2 same_exchange h (list_update j (JDict (assoc_set k v d)) h).
Proof.
  intros Hn Hk. revert j Hn. induction h as [|a h IH]; intros [|j] Hn; try discriminate.
  - cbn in Hn. inversion Hn. subst a. cbn [list_update]. constructor.
    + right. exists d, (assoc_set k v d). repeat split.
      intros k' H1 H2. apply assoc_get_set_other. destruct Hk; congruence.
    + apply Forall2_same_exchange_refl.
  - cbn [list_update]. constructor; [apply same_exchange_refl|]. now apply IH.
Qed.

(** X15.  No operation other than "Clear Session History" removes, reorders or
    rewrites an entry: the history afterwards is the old entries in their old
    order, each one the same value or the same dict up to its [rating] and
    [pinned], followed by at most one new entry. *)
Theorem history_is_append_only (e : env) (op : operation) (w : world) :
  op <> Clear ->
  exists kept added,
    history (session (fst (perform e op w))) = kept ++ added /\
    Forall2 same_exchange (history (session w)) kept /\
    (length added <= 1)%nat.
Proof.
  intro Hnc.
  destruct (perform_session e op w)
    as [H|[(b & Hop & H)|[(Hop & H)|[(j & d & k & v & Hop & Hj & Hk & H)|
        [(img & Hop & H)|[(Hop & H)|(p & r & id & ts & q & a & Hop & H)]]]]]];
    cbv zeta in H; rewrite H; clear H;
    cbn [with_persist with_history with_image history]; try congruence.
  - exists (history (session w)), []. rewrite app_nil_r.
    split; [reflexivity|]. split; [apply Forall2_same_exchange_refl|cbn; lia].
  - exists (history (session w)), []. rewrite app_nil_r.
    split; [reflexivity|]. split; [apply Forall2_same_exchange_refl|cbn; lia].
  - eexists _, []. rewrite app_nil_r.
    split; [reflexivity|]. split; [now apply Forall2_list_update|cbn; lia].
  - exists (history (session w)), []. rewrite app_nil_r.
    split; [reflexivity|]. split; [apply Forall2_same_exchange_refl|cbn; lia].
  - exists (history (session w)), []. rewrite app_nil_r.
    split; [reflexivity|]. split; [apply Forall2_same_exchange_refl|cbn; lia].
  - eexists (history (session w)), [_].
    split; [reflexivity|]. split; [apply Forall2_same_exchange_refl|cbn; lia].
Qed.

Lemma history_is_append_only_witness :
  exists kept added,
    history (session (fst (perform configured_env PinLast two_entry_world)))
      = kept ++ added /\
    Forall2 same_exchange (history (session two_entry_world)) kept /\
    (length added <= 1)%nat.
Proof.
  apply (history_is_append_only configured_env PinLast two_entry_world).
  discriminate.
Defined.

(** ** Pinning *)

Lemma assoc_set_same k v d : assoc_get k d = Some v -> assoc_set k v d = d.
Proof.
  induction d as [|[k' v'] d IH]; [discriminate|].
  cbn. destruct (pystr_eqb k k'); [now intros [= ->]|].
  intro H. now rewrite IH.
Qed.

Lemma assoc_set_twice k v v' d : assoc_set k v (assoc_set k v' d) = assoc_set k v d.
Proof.
  induction d as [|[k' v0] d IH]; cbn.
  - now rewrite pystr_eqb_refl.
  - destruct (pystr_eqb k k') eqn:E; cbn; rewrite E; [reflexivity|now rewrite IH].
Qed.

Lemma get_default_set k def v d : get_default k def (assoc_set k v d) = v.
Proof. unfold get_default. now rewrite assoc_get_set_same. Qed.

Lemma toggle_twice d b :
  assoc_get (lit "pinned") d = Some (JBool b) ->
  let once := assoc_set (lit "pinned")
                (JBool (negb (truthy (get_default (lit "pinned") (JBool false) d)))) d in
  assoc_set (lit "pinned")
    (JBool (negb (truthy (get_default (lit "pinned") (JBool false) once)))) once = d.
Proof.
  intros Hd once. subst once. rewrite get_default_set, assoc_set_twice.
  unfold get_default. rewrite Hd. cbn [truthy]. rewrite negb_involutive.
  now apply assoc_set_same.
Qed.

(** X16.  "Pin last" is a toggle: on a last entry whose [pinned] is a boolean (as a
    send builds it), one click negates [pinned] and a second click gives back
    the history as it was. *)
Theorem pin_last_twice_restores (e : env) (w : world) (h : list json)
    (d : list (pystr * json)) (b : bool) :
  history (session w) = h ++ [JDict d] ->
  assoc_get (lit "pinned") d = Some (JBool b) ->
  let w1 := fst (pin_last_clicked e w) in
  history (session w1) = h ++ [JDict (assoc_set (lit "pinned") (JBool (negb b)) d)] /\
  history (session (fst (pin_last_clicked e w1))) = history (session w).
Proof.
  intros Hh Hd w1.
  assert (H1 : history (session w1)
                = h ++ [JDict (assoc_set (lit "pinned")
                          (JBool (negb (truthy (get_default (lit "pinned") (JBool false) d))))
                          d)]).
  { subst w1. unfold pin_last_clicked. rewrite Hh, last_entry_app.
    rewrite fst_let, save_session. cbn [with_session with_history session history].
    now rewrite set_last_app. }
  split.
  - rewrite H1. unfold get_default. now rewrite Hd.
  - unfold pin_last_clicked. rewrite H1, last_entry_app.
    rewrite fst_let, save_session. cbn [with_session with_history session history].
    rewrite set_last_app, Hh. do 3 f_equal. now apply (toggle_twice d b).
Qed.

Lemma pin_last_twice_restores_witness :
  List.map (field (lit "pinned"))
    (history (session (fst (pin_last_clicked configured_env two_entry_world))))
    = [Some (JBool false); Some (JBool true)] /\
  history (session (fst (pin_last_clicked configured_env
                           (fst (pin_last_clicked configured_env two_entry_world)))))
    = [sample_entry; emoji_entry].
Proof.
  destruct (pin_last_twice_restores configured_env two_entry_world [sample_entry]
              [(lit "id", JStr (lit "1700000003.25"));
               (lit "timestamp", JStr (lit "2023-11-14 22:13:23"));
               (lit "question", JStr (lit "caf" ++ [233; 32; 128512]));
               (lit "answer", JStr (lit "Sunny " ++ [9728; 65039; 10; 34] ++ lit "beach" ++ [34]));
               (lit "rating", JInt 0);
               (lit "pinned", JBool false)] false eq_refl eq_refl) as [H1 H2].
  split; [rewrite H1; reflexivity | exact H2].
Defined.

(** X17.  The two pin buttons of the newest entry do the same thing: the pin
    button the sidebar shows for the last entry of the history and "Pin last"
    leave the same world (session, file and clock), whatever the history
    holds. *)
Theorem both_pin_buttons_agree_on_last (e : env) (w : world) :
  fst (sidebar_pin_clicked e (length (history (session w)) - 1) w)
    = fst (pin_last_clicked e w).
Proof.
  unfold sidebar_pin_clicked, pin_last_clicked, last_entry.
  destruct (history (session w)) as [|x h] eqn:Eh; [reflexivity|].
  replace ((length (x :: h) - 6 <=? length (x :: h) - 1)%nat
           && (length (x :: h) - 1 <? length (x :: h))%nat) with true.
  - cbn [negb].
    destruct (nth_error (x :: h) (length (x :: h) - 1)) as [[| | | | |d]|] eqn:El;
      try reflexivity.
    rewrite fst_let. unfold set_last.
    now rewrite (list_update_last _ _ _ El).
  - symmetry. apply andb_true_intro. split.
    + apply Nat.leb_le. lia.
    + apply Nat.ltb_lt. cbn [length]. lia.
Qed.

(** ** Upload and send *)



(** After an upload that raised, the send goes through with the image of
    before. *)
Example send_after_truncated_upload :
  List.map entry_id
    (history (session (run configured_env
       [Do (Upload (Decoded sample_image)); Do (Upload (DecodeRaised (lit "OSError")));
        Do (Send (lit "Summarize") beach_stub)]
       (initial_world empty_fs))))
  = [Some (JStr (lit "1700000000.5"))].
Proof. vm_compute. reflexivity. Qed.

(** ** The preview of the sidebar *)

(** X19.  The sidebar never shows more than 241 characters of an answer and never
    alters its first 240; an answer shorter than 240 characters is shown as
    it is, and one of exactly 240 characters is shown whole with an ellipsis
    after it. *)
Theorem preview_bounds (a : pystr) :
  (length (preview a) <= 241)%nat /\
  firstn 240 (preview a) = firstn 240 a /\
  ((length a < 240)%nat -> preview a = a) /\
  (length a = 240%nat -> preview a = a ++ [8230]).
Proof.
  unfold preview. destruct (Nat.ltb_spec (length a) 240) as [Hlt|Hge].
  - split; [lia|]. split; [reflexivity|]. split; [reflexivity|lia].
  - assert (Hl : length (firstn 240 a) = 240%nat) by (rewrite length_firstn; lia).
    split; [rewrite length_app, Hl; cbn; lia|].
    split.
    + rewrite firstn_app, Hl, Nat.sub_diag, firstn_O, app_nil_r.
      rewrite firstn_firstn, Nat.min_id. reflexivity.
    + split; [lia|]. intro H. now rewrite firstn_all2 by lia.
Qed.

(** ** Downloads *)

Lemma utf8_decode_eq b r1 :
  utf8_decode (b :: r1) =
    if b <? 128 then cons_code b (utf8_decode r1)
    else if b <? 192 then None
    else if b <? 224 then
      match r1 with
      | b2 :: r2 =>
          let c := (b - 192) * 64 + (b2 - 128) in
          if is_continuation b2 && (128 <=? c) then cons_code c (utf8_decode r2)
          else None
      | _ => None
      end
    else if b <? 240 then
      match r1 with
      | b2 :: b3 :: r3 =>
          let c := ((b - 224) * 64 + (b2 - 128)) * 64 + (b3 - 128) in
          if is_continuation b2 && is_continuation b3 && (2048 <=? c)
             && negb ((55296 <=? c) && (c <=? 57343))
          then cons_code c (utf8_decode r3)
          else None
      | _ => None
      end
    else if b <? 248 then
      match r1 with
      | b2 :: b3 :: b4 :: r4 =>
          let c := (((b - 240) * 64 + (b2 - 128)) * 64 + (b3 - 128)) * 64 + (b4 - 128) in
          if is_continuation b2 && is_continuation b3 && is_continuation b4
             && (65536 <=? c) && (c <? 1114112)
          then cons_code c (utf8_decode r4)
          else None
      | _ => None
      end
    else None.
Proof. reflexivity. Qed.

Lemma utf8_decode_char_cases c rest :
  match utf8_char c with
  | Some bytes => utf8_decode (bytes ++ rest) = cons_code c (utf8_decode rest)
  | None => True
  end.
Proof.
  unfold utf8_char.
  pose proof (N.div_mod c 64 ltac:(discriminate)) as D0.
  pose proof (N.mod_lt c 64 ltac:(discriminate)) as M0.
  pose proof (N.div_mod (c / 64) 64 ltac:(discriminate)) as D1.
  pose proof (N.mod_lt (c / 64) 64 ltac:(discriminate)) as M1.
  pose proof (N.div_mod (c / 64 / 64) 64 ltac:(discriminate)) as D2.
  pose proof (N.mod_lt (c / 64 / 64) 64 ltac:(discriminate)) as M2.
  assert (E1 : c / 4096 = c / 64 / 64) by (now rewrite N.Div0.div_div).
  assert (E2 : c / 262144 = c / 64 / 64 / 64) by (now rewrite !N.Div0.div_div).
  assert (E3 : (c / 4096) mod 64 = (c / 64 / 64) mod 64) by (now rewrite E1).
  rewrite ?E1, ?E2, ?E3.
  set (q1 := c / 64) in *. set (r0 := c mod 64) in *.
  set (q2 := q1 / 64) in *. set (r1 := q1 mod 64) in *.
  set (q3 := q2 / 64) in *. set (r2 := q2 mod 64) in *.
  clearbody q1 r0 q2 r1 q3 r2. clear E1 E2 E3.
  destruct (N.ltb_spec c 128) as [H1|H1].
  { cbn [app]. rewrite utf8_decode_eq.
    now rewrite (proj2 (N.ltb_lt c 128) H1). }
  destruct (N.ltb_spec c 2048) as [H2|H2].
  { cbn [app]. rewrite utf8_decode_eq. unfold is_continuation.
    cbv zeta.
    replace (192 + q1 - 192) with q1 by lia. replace (128 + r0 - 128) with r0 by lia.
    replace (q1 * 64 + r0) with c by lia.
    repeat match goal with
           | |- context [N.ltb ?a ?b] => destruct (N.ltb_spec a b); try (exfalso; lia)
           | |- context [N.leb ?a ?b] => destruct (N.leb_spec a b); try (exfalso; lia)
           end.
    reflexivity. }
  destruct (N.ltb_spec c 65536) as [H3|H3].
  { destruct ((55296 <=? c) && (c <=? 57343)) eqn:Hs; [exact I|].
    cbn [app]. rewrite utf8_decode_eq. unfold is_continuation.
    cbv zeta.
    replace (224 + q2 - 224) with q2 by lia. replace (128 + r1 - 128) with r1 by lia.
    replace (128 + r0 - 128) with r0 by lia.
    replace ((q2 * 64 + r1) * 64 + r0) with c by lia.
    rewrite Hs.
    repeat match goal with
           | |- context [N.ltb ?a ?b] => destruct (N.ltb_spec a b); try (exfalso; lia)
           | |- context [N.leb ?a ?b] => destruct (N.leb_spec a b); try (exfalso; lia)
           end.
    reflexivity. }
  destruct (N.ltb_spec c 1114112) as [H4|H4]; [|exact I].
  cbn [app]. rewrite utf8_decode_eq. unfold is_continuation.
  cbv zeta.
  replace (240 + q3 - 240) with q3 by lia. replace (128 + r2 - 128) with r2 by lia.
  replace (128 + r1 - 128) with r1 by lia. replace (128 + r0 - 128) with r0 by lia.
  replace (((q3 * 64 + r2) * 64 + r1) * 64 + r0) with c by lia.
  repeat match goal with
         | |- context [N.ltb ?a ?b] => destruct (N.ltb_spec a b); try (exfalso; lia)
         | |- context [N.leb ?a ?b] => destruct (N.leb_spec a b); try (exfalso; lia)
         end.
  reflexivity.
Qed.

Lemma utf8_decode_char c bytes rest :
  utf8_char c = Some bytes ->
  utf8_decode (bytes ++ rest) = cons_code c (utf8_decode rest).
Proof.
  intro H. pose proof (utf8_decode_char_cases c rest) as Hc. now rewrite H in Hc.
Qed.

Lemma utf8_decode_encode text bytes :
  utf8_encode text = Some bytes -> utf8_decode bytes = Some text.
Proof.
  revert bytes. induction text as [|c text IH]; intros bytes H.
  - cbn in H. now inversion H.
  - cbn [utf8_encode] in H.
    destruct (utf8_char c) as [b|] eqn:Ec; [|discriminate].
    destruct (utf8_encode text) as [r|] eqn:Er; [|discriminate].
    inversion H. subst bytes.
    rewrite (utf8_decode_char c b r Ec), (IH r eq_refl). reflexivity.
Qed.

(** X21.  "Download last" hands over the last answer: when the last entry of the
    history is a dict whose answer is a string of Unicode scalar values (no
    lone surrogate), the data of the button are bytes, never an exception, and
    decoding them as UTF-8 gives the answer back, so two different answers
    never download as the same bytes. *)
Theorem download_last_is_the_answer (h : list json) (d : list (pystr * json))
    (a : pystr) :
  last_entry h = Some (JDict d) ->
  assoc_get (lit "answer") d = Some (JStr a) ->
  forallb scalar_value a = true ->
  exists content,
    download_last h = Bytes content /\ utf8_decode content = Some a.
Proof.
  intros Hl Ha Hs. unfold download_last, download_text_bytes. rewrite Hl, Ha.
  destruct (utf8_encode_defined a Hs) as (b & Hb). rewrite Hb.
  exists b. split; [reflexivity|]. now apply utf8_decode_encode.
Qed.

Lemma download_last_is_the_answer_witness :
  exists content,
    download_last [sample_entry; emoji_entry] = Bytes content /\
    utf8_decode content
      = Some (lit "Sunny " ++ [9728; 65039; 10; 34] ++ lit "beach" ++ [34]).
Proof.
  apply (download_last_is_the_answer [sample_entry; emoji_entry]
           [(lit "id", JStr (lit "1700000003.25"));
            (lit "timestamp", JStr (lit "2023-11-14 22:13:23"));
            (lit "question", JStr (lit "caf" ++ [233; 32; 128512]));
            (lit "answer", JStr (lit "Sunny " ++ [9728; 65039; 10; 34] ++ lit "beach" ++ [34]));
            (lit "rating", JInt 0);
            (lit "pinned", JBool false)]).
  - reflexivity.
  - reflexivity.
  - reflexivity.
Defined.

Example utf8_of_sun_and_smile :
  utf8_encode [65; 233; 9728; 128512]
    = Some [65; 195; 169; 226; 152; 128; 240; 159; 152; 128].
Proof. reflexivity. Qed.

Example utf8_of_lone_surrogate : utf8_encode [65; 55357] = None.
Proof. reflexivity. Qed.

(** X11.  The export is the history as UTF-8 bytes.  It reads the clock and
    touches neither the session nor the file.  When the text of the document
    ([exported_at] and [items]) can be encoded (no lone surrogate in it), the
    button gets bytes that decode to that text; a [history.json] holding the
    text loads as the history that was exported whenever [json.load] reads the
    document back (the load reads [items] only).  When the text cannot be
    encoded, [.encode("utf-8")] raises and no data is made. *)
Theorem export_loads_as_history (e : env) (w w' : world) :
  let doc := JDict [(lit "exported_at", JStr (iso (clock e (clock_reads w))));
                    (lit "items", JList (history (session w)))] in
  encodable (json_dumps e doc) = true ->
  json_loads e (json_dumps e doc) = Some doc ->
  history_json (fs w') = Readable (json_dumps e doc) ->
  exists bytes,
    export_history_bytes e w
      = (Some bytes, World (session w) (fs w) (S (clock_reads w))) /\
    perform e Export w
      = (World (session w) (fs w) (S (clock_reads w)), [StDownload bytes]) /\
    utf8_decode bytes = Some (json_dumps e doc) /\
    history (session (load_history_from_disk e w')) = history (session w).
Proof.
  intros doc Henc Hload Hf.
  destruct (utf8_encode_defined _ Henc) as (bytes & Hb).
  exists bytes. cbn [perform]. unfold export_clicked, export_history_bytes, now_iso.
  cbn [session fs clock_reads]. fold doc. rewrite Hb.
  split; [reflexivity|]. split; [reflexivity|].
  split; [now apply utf8_decode_encode|].
  erewrite load_after_write; [| exact Hf | exact Hload | reflexivity]. reflexivity.
Qed.

Lemma export_loads_as_history_witness :
  let text := json_dumps configured_env
                (JDict [(lit "exported_at", JStr (lit "2023-11-14 22:13:20"));
                        (lit "items", JList [sample_entry; emoji_entry])]) in
  exists bytes,
    export_history_bytes configured_env two_entry_world
      = (Some bytes, World (session two_entry_world) (fs two_entry_world) 5) /\
    perform configured_env Export two_entry_world
      = (World (session two_entry_world) (fs two_entry_world) 5, [StDownload bytes]) /\
    utf8_decode bytes = Some text /\
    history (session (load_history_from_disk configured_env
                        (initial_world (Fs (Readable text) None))))
      = [sample_entry; emoji_entry].
Proof.
  apply (export_loads_as_history configured_env two_entry_world
           (initial_world
              (Fs (Readable
                     (json_dumps configured_env
                        (JDict [(lit "exported_at", JStr (lit "2023-11-14 22:13:20"));
                                (lit "items", JList [sample_entry; emoji_entry])])))
                  None))).
  - vm_compute. reflexivity.
  - unfold json_dumps. cbn [json_chunks json_loads configured_env].
    rewrite ref_chunks_dumps. apply ref_loads_dumps.
  - reflexivity.
Defined.

(** A history that holds a lone surrogate cannot be exported: the encoding
    raises where the script builds the data of the button. *)
Example export_of_lone_surrogate_raises :
  fst (export_history_bytes configured_env surrogate_world) = None /\
  perform configured_env Export surrogate_world
    = (World (session surrogate_world) (fs surrogate_world) 3,
       [Uncaught (lit "UnicodeEncodeError")]).
Proof. vm_compute. split; reflexivity. Qed.

(** ** A write that fails *)

(** X5.  A write that fails is reported and costs nothing else: with persistence
    on and a disk that refuses the write with message [msg], an operation that
    changes the history shows the warning "Could not save history to disk: "
    followed by [msg] and leaves the file system as it was (the change in
    memory is the one made with a disk that accepts writes). *)
Theorem failed_save_is_reported (e : env) (op : operation) (w : world) (msg : pystr) :
  persist_opt_in (session w) = true ->
  write_denied (fs w) = Some msg ->
  history (session (fst (perform e op w))) <> history (session w) ->
  In (StWarning (lit "Could not save history to disk: " ++ msg)) (snd (perform e op w)) /\
  fs (fst (perform e op w)) = fs w /\
  session (fst (perform e op w))
    = session (fst (perform e op (World (session w) (Fs (history_json (fs w)) None)
                                       (clock_reads w)))).
Proof.
  intros Hp Hw Hch. rewrite <- (world_eta w) in *. cbn [session fs clock_reads] in *.
  destruct (perform_outcome e op (session w) (clock_reads w))
    as (s' & n' & saves & tail & H & Hh & Hps).
  rewrite !H in *. destruct saves; cbn [fst snd session fs] in *.
  - rewrite !save_session.
    rewrite save_denied with (msg := msg); cbn [session fs fst snd];
      [|rewrite Hps by reflexivity; exact Hp|exact Hw].
    repeat split. now left.
  - now rewrite Hh in Hch.
Qed.

Lemma failed_save_is_reported_witness :
  In (StWarning (lit "Could not save history to disk: " ++ lit "Permission denied"))
     (snd (perform configured_env (Send (lit "Summarize") beach_stub)
             (World (Session [] (Some sample_image) true (Achievements 0 true))
                    (Fs Missing (Some (lit "Permission denied"))) 0))) /\
  fs (fst (perform configured_env (Send (lit "Summarize") beach_stub)
             (World (Session [] (Some sample_image) true (Achievements 0 true))
                    (Fs Missing (Some (lit "Permission denied"))) 0)))
    = Fs Missing (Some (lit "Permission denied")).
Proof.
  destruct (failed_save_is_reported configured_env (Send (lit "Summarize") beach_stub)
              (World (Session [] (Some sample_image) true (Achievements 0 true))
                     (Fs Missing (Some (lit "Permission denied"))) 0)
              (lit "Permission denied") eq_refl eq_refl) as (H1 & H2 & _).
  - vm_compute. discriminate.
  - split; [exact H1|exact H2].
Defined.

(** ** What the page lists *)

Lemma nth_error_rev {A : Type} (l : list A) k :
  (k < length l)%nat -> nth_error (rev l) k = nth_error l (length l - 1 - k).
Proof.
  intro Hk.
  destruct (nth_error l (length l - 1 - k)) as [x|] eqn:E.
  - rewrite (nth_error_nth' (rev l) x) by (rewrite length_rev; lia).
    rewrite rev_nth by lia.
    replace (length l - S k)%nat with (length l - 1 - k)%nat by lia.
    f_equal. now apply nth_error_nth.
  - apply nth_error_None in E. lia.
Qed.

(** X20.  The sidebar lists the newest entries, newest first, six at most; the
    chat shows the newest ten in the order they were asked.  The entry listed
    at place [k] of the sidebar is the one at index [length - 1 - k] of the
    history, and that index is one the sidebar pin handler accepts. *)
Theorem page_lists_the_newest_entries (h : list json) :
  length (sidebar_entries h) = Nat.min 6 (length h) /\
  length (conversation_entries h) = Nat.min 10 (length h) /\
  (forall k, (k < Nat.min 6 (length h))%nat ->
     nth_error (sidebar_entries h) k = nth_error h (length h - 1 - k) /\
     ((length h - 6 <=? length h - 1 - k)%nat
        && (length h - 1 - k <? length h)%nat) = true) /\
  (forall k, (k < Nat.min 10 (length h))%nat ->
     nth_error (conversation_entries h) k = nth_error h (length h - Nat.min 10 (length h) + k)).
Proof.
  unfold sidebar_entries, conversation_entries.
  split; [rewrite length_rev, length_skipn; lia|].
  split; [rewrite length_skipn; lia|].
  split.
  - intros k Hk. split.
    + rewrite nth_error_rev by (rewrite length_skipn; lia).
      rewrite length_skipn, nth_error_skipn. f_equal. lia.
    + apply andb_true_intro. split; [apply Nat.leb_le|apply Nat.ltb_lt]; lia.
  - intros k Hk. rewrite nth_error_skipn. f_equal. lia.
Qed.
